(** * Track map: coordinate normalisation and playback controller

    A shallow embedding of [frontend/components/TrackMap.tsx] (and of the
    earlier, static variant of the same component) together with the
    properties of the projection engine and of the playback controller.

    Numbers.  The arithmetic of the projection and of the colour gradient
    is given two readings.  In the exact reading a JavaScript [number] that
    holds a coordinate, a speed or a scale is a rational [Q]: this is what the
    formulas compute without rounding; a computation whose result is not a
    finite number (the minimum of no arguments, a division by zero) returns
    [None].  In the reading of [Module Binary64] a [number] is an IEEE 754
    binary64 value with round-to-nearest-even operations, as the program runs
    it.  Equality of rationals is [==] ([Qeq]); strings and integers use
    [=]. *)

From Stdlib Require Import QArith Qminmax Qround Lqa.
From Stdlib Require Import ZArith List String Ascii Lia DecimalString.
From Stdlib Require Import Floats.
Import ListNotations.

(** ** The option monad used for computations that may leave the model *)

Definition bind {A B : Type} (m : option A) (f : A -> option B) : option B :=
  match m with
  | Some a => f a
  | None => None
  end.

Notation "'let?' x ':=' m 'in' k" := (bind m (fun x => k))
  (at level 10, x name, m at level 100, k at level 200).

(** ** JavaScript built-ins used by the component *)

Module JS.

Local Open Scope Q_scope.

(** [Math.min(...xs)]: the least argument; [Infinity] when there is none. *)
Definition Math_min (xs : list Q) : option Q :=
  match xs with
  | [] => None
  | x :: rest => Some (fold_left Qmin rest x)
  end.

(** [Math.max(...xs)]: the greatest argument; [-Infinity] when there is none. *)
Definition Math_max (xs : list Q) : option Q :=
  match xs with
  | [] => None
  | x :: rest => Some (fold_left Qmax rest x)
  end.

(** [a || d] on numbers: [0] is the only falsy finite number. *)
Definition or_else (a d : Q) : Q :=
  if Qeq_bool a 0 then d else a.

(** [a / b]: not a finite number when [b] is zero. *)
Definition div (a b : Q) : option Q :=
  if Qeq_bool b 0 then None else Some (a / b).

(** [2^1022]: two doubles of at most this magnitude have a finite
    difference (the largest double is just below [2^1024]). *)
Definition max_magnitude : Q := inject_Z (2 ^ 1022).

(** [Math.round(x)]: the nearest integer, ties towards +Infinity. *)
Definition Math_round (x : Q) : Z :=
  Qfloor (x + (1 # 2)).

(** Template-literal conversion of an integral number. *)
Definition string_of_integer (z : Z) : string :=
  NilZero.string_of_int (Z.to_int z).

Fixpoint zeros (n : nat) : string :=
  match n with
  | O => EmptyString
  | S n' => String "0" (zeros n')
  end.

(** [x.toFixed(f)] (ECMA-262, Number.prototype.toFixed): sign, then the
    integer [n] closest to [|x| * 10^f] (the larger one on a tie) printed with
    [f] digits after the point.  From [10^21] on JavaScript prints the double
    in exponent notation, which has no counterpart here: [None]. *)
Definition toFixed (x : Q) (f : nat) : option string :=
  let neg := negb (Qle_bool 0 x) in
  let ax := if neg then - x else x in
  if Qle_bool (inject_Z (10 ^ 21)) ax then None
  else
    let n := Qfloor (ax * inject_Z (10 ^ Z.of_nat f) + (1 # 2)) in
    let m := NilZero.string_of_uint (N.to_uint (Z.to_N n)) in
    let m := if (String.length m <=? f)%nat
             then (zeros (f + 1 - String.length m) ++ m)%string else m in
    let k := String.length m in
    let body := if (f =? 0)%nat then m
                else (substring 0 (k - f) m ++ "." ++ substring (k - f) f m)%string in
    Some ((if neg then "-" else "") ++ body)%string.

End JS.

(** ** Data model *)

Record TelemetryPoint : Type := {
  x_coordinate : Q;
  y_coordinate : Q;
  speed : Q;
  n_gear : option Z;
  throttle : option Q;
  brake : option Q
}.

Record NormParams : Type := {
  minX : Q;
  minY : Q;
  scale : Q;
  offsetX : Q;
  offsetY : Q
}.

Record Point : Type := { x : Q; y : Q }.

Definition SIZE : Q := 800.
Definition PADDING : Q := 40.

(** ** Projection engine *)

Section Projection.

Local Open Scope Q_scope.

Definition buildNormParams (telemetry : list TelemetryPoint)
    (viewBoxSize padding : Q) : option NormParams :=
  let xs := map x_coordinate telemetry in
  let ys := map y_coordinate telemetry in
  let? minX := JS.Math_min xs in
  let? maxX := JS.Math_max xs in
  let? minY := JS.Math_min ys in
  let? maxY := JS.Math_max ys in
  let rangeX := JS.or_else (maxX - minX) 1 in
  let rangeY := JS.or_else (maxY - minY) 1 in
  let maxRange := Qmax rangeX rangeY in
  let drawable := viewBoxSize - padding * 2 in
  let? scale := JS.div drawable maxRange in
  let offsetX := padding + (drawable - rangeX * scale) / 2 in
  let offsetY := padding + (drawable - rangeY * scale) / 2 in
  Some {| minX := minX; minY := minY; scale := scale;
          offsetX := offsetX; offsetY := offsetY |}.

Definition normPoint (p : TelemetryPoint) (params : NormParams) : Point :=
  {| x := (x_coordinate p - minX params) * scale params + offsetX params;
     y := (y_coordinate p - minY params) * scale params + offsetY params |}.

(** [array.map((p, i) => f(p, i))]. *)
Fixpoint mapi_from {A B : Type} (f : A -> nat -> B) (i : nat) (l : list A)
    : list B :=
  match l with
  | [] => []
  | a :: rest => f a i :: mapi_from f (S i) rest
  end.

Definition mapi {A B : Type} (f : A -> nat -> B) (l : list A) : list B :=
  mapi_from f 0%nat l.

(** All the strings of a list, when every one of them was produced. *)
Fixpoint all_some {A : Type} (l : list (option A)) : option (list A) :=
  match l with
  | [] => Some []
  | o :: rest =>
      let? a := o in
      let? r := all_some rest in
      Some (a :: r)
  end.

(** One path command: [`${i === 0 ? "M" : "L"} ${x.toFixed(2)} ${y.toFixed(2)}`]. *)
Definition pathCommand (pt : Point) (i : nat) : option string :=
  let? sx := JS.toFixed (x pt) 2 in
  let? sy := JS.toFixed (y pt) 2 in
  Some ((if (i =? 0)%nat then "M" else "L") ++ " " ++ sx ++ " " ++ sy)%string.

Definition buildPathData (telemetry : list TelemetryPoint)
    (params : NormParams) : option string :=
  let? commands :=
    all_some (mapi (fun p i => pathCommand (normPoint p params) i) telemetry) in
  Some (String.concat " " commands).

(** The local [t] of [speedColor]. *)
Definition speedColor_t (speed min max : Q) : option Q :=
  let? ratio := JS.div (speed - min) (JS.or_else (max - min) 1) in
  Some (Qmax 0 (Qmin 1 ratio)).

Definition speedColor (speed min max : Q) : option string :=
  let? t := speedColor_t speed min max in
  let r := JS.Math_round (30 + t * 225) in
  let g := JS.Math_round (120 - t * 100) in
  let b := JS.Math_round (255 - t * 230) in
  Some ("rgb(" ++ JS.string_of_integer r ++ "," ++ JS.string_of_integer g
          ++ "," ++ JS.string_of_integer b ++ ")")%string.

(** [minSpeed] and [maxSpeed] of the component body. *)
Definition minSpeed (telemetry : list TelemetryPoint) : option Q :=
  JS.Math_min (map speed telemetry).

Definition maxSpeed (telemetry : list TelemetryPoint) : option Q :=
  JS.Math_max (map speed telemetry).

(** [startPos] of the component body. *)
Definition startPos (telemetry : list TelemetryPoint) : option Point :=
  match telemetry with
  | [] => None
  | first :: _ =>
      let? normParams := buildNormParams telemetry SIZE PADDING in
      Some (normPoint first normParams)
  end.

(** [GEAR_COLORS]: the colour of each of the eight gears. *)
Definition GEAR_COLORS (gear : Z) : option string :=
  match gear with
  | 1%Z => Some "#ef4444"%string
  | 2%Z => Some "#f97316"%string
  | 3%Z => Some "#eab308"%string
  | 4%Z => Some "#22c55e"%string
  | 5%Z => Some "#06b6d4"%string
  | 6%Z => Some "#3b82f6"%string
  | 7%Z => Some "#8b5cf6"%string
  | 8%Z => Some "#ec4899"%string
  | _ => None
  end.

(** The colour of the gear readout:
    [GEAR_COLORS[current.n_gear ?? 0] ?? "#ffffff"]. *)
Definition gearColor (gear : option Z) : string :=
  match GEAR_COLORS (match gear with Some g => g | None => 0%Z end) with
  | Some colour => colour
  | None => "#ffffff"%string
  end.

(** The extent of a list of coordinates: greatest minus least. *)
Definition coordRange (vals : list Q) : option Q :=
  let? mn := JS.Math_min vals in
  let? mx := JS.Math_max vals in
  Some (mx - mn).

Definition projectedXs (telemetry : list TelemetryPoint)
    (params : NormParams) : list Q :=
  map (fun p => x (normPoint p params)) telemetry.

Definition projectedYs (telemetry : list TelemetryPoint)
    (params : NormParams) : list Q :=
  map (fun p => y (normPoint p params)) telemetry.

End Projection.

(** ** The earlier variant of the component

    It has no [NormParams]: the path builder and the start marker each derive
    minimum, ranges, scale and offsets inline. *)

Module Legacy.

Local Open Scope Q_scope.

Definition buildPathData (telemetry : list TelemetryPoint)
    (viewBoxSize padding : Q) : option string :=
  let xs := map x_coordinate telemetry in
  let ys := map y_coordinate telemetry in
  let? minX := JS.Math_min xs in
  let? maxX := JS.Math_max xs in
  let? minY := JS.Math_min ys in
  let? maxY := JS.Math_max ys in
  let rangeX := JS.or_else (maxX - minX) 1 in
  let rangeY := JS.or_else (maxY - minY) 1 in
  let maxRange := Qmax rangeX rangeY in
  let drawable := viewBoxSize - padding * 2 in
  let? scale := JS.div drawable maxRange in
  let offsetX := padding + (drawable - rangeX * scale) / 2 in
  let offsetY := padding + (drawable - rangeY * scale) / 2 in
  let points :=
    map (fun p =>
           {| x := (x_coordinate p - minX) * scale + offsetX;
              y := (y_coordinate p - minY) * scale + offsetY |}) telemetry in
  let? commands :=
    all_some
      (mapi (fun pt i =>
               let? sx := JS.toFixed (x pt) 2 in
               let? sy := JS.toFixed (y pt) 2 in
               Some ((if (i =? 0)%nat then "M" else "L")
                       ++ " " ++ sx ++ " " ++ sy)%string) points) in
  Some (String.concat " " commands).

(** The start/finish marker [(sx, sy)], computed inside the render body when
    [telemetry.length > 0]. *)
Definition startMarker (telemetry : list TelemetryPoint) : option Point :=
  match telemetry with
  | [] => None
  | first :: _ =>
      let xs := map x_coordinate telemetry in
      let ys := map y_coordinate telemetry in
      let? minX := JS.Math_min xs in
      let? maxX := JS.Math_max xs in
      let? minY := JS.Math_min ys in
      let? maxY := JS.Math_max ys in
      let rangeX := JS.or_else (maxX - minX) 1 in
      let rangeY := JS.or_else (maxY - minY) 1 in
      let maxRange := Qmax rangeX rangeY in
      let drawable := SIZE - PADDING * 2 in
      let? scale := JS.div drawable maxRange in
      let offsetX := PADDING + (drawable - rangeX * scale) / 2 in
      let offsetY := PADDING + (drawable - rangeY * scale) / 2 in
      let sx := (x_coordinate first - minX) * scale + offsetX in
      let sy := (y_coordinate first - minY) * scale + offsetY in
      Some {| x := sx; y := sy |}
  end.

(** The path the earlier component renders. *)
Definition pathData (telemetry : list TelemetryPoint) : option string :=
  buildPathData telemetry SIZE PADDING.

End Legacy.

(** ** The projection and the gradient parameter in binary64

    The same functions with [number] read as an IEEE 754 double: every
    operation rounds to nearest-even, a range may overflow to [Infinity] and a
    quotient may be [NaN]. *)

Module Binary64.

Local Open Scope float_scope.

Record TelemetryPoint : Type := {
  x_coordinate : float;
  y_coordinate : float;
  speed : float;
  n_gear : option Z;
  throttle : option float;
  brake : option float
}.

Record NormParams : Type := {
  minX : float;
  minY : float;
  scale : float;
  offsetX : float;
  offsetY : float
}.

Record Point : Type := { x : float; y : float }.

Definition SIZE : float := 800.
Definition PADDING : float := 40.

(** One step of [Math.min]: [NaN] wins, then [-0] is below [+0]. *)
Definition min_step (lowest number : float) : float :=
  if is_nan lowest || is_nan number then nan
  else if is_zero number && is_zero lowest
       then (if get_sign number then number else lowest)
  else if number <? lowest then number else lowest.

(** One step of [Math.max]: [NaN] wins, then [+0] is above [-0]. *)
Definition max_step (highest number : float) : float :=
  if is_nan highest || is_nan number then nan
  else if is_zero number && is_zero highest
       then (if get_sign number then highest else number)
  else if highest <? number then number else highest.

(** [Math.min(...xs)], from [+Infinity]. *)
Definition Math_min (xs : list float) : float :=
  fold_left min_step xs infinity.

(** [Math.max(...xs)], from [-Infinity]. *)
Definition Math_max (xs : list float) : float :=
  fold_left max_step xs neg_infinity.

(** [a || d]: [NaN], [+0] and [-0] are falsy. *)
Definition or_else (a d : float) : float :=
  if is_nan a || is_zero a then d else a.

Definition buildNormParams (telemetry : list TelemetryPoint)
    (viewBoxSize padding : float) : NormParams :=
  let xs := map x_coordinate telemetry in
  let ys := map y_coordinate telemetry in
  let minX := Math_min xs in
  let maxX := Math_max xs in
  let minY := Math_min ys in
  let maxY := Math_max ys in
  let rangeX := or_else (maxX - minX) 1 in
  let rangeY := or_else (maxY - minY) 1 in
  let maxRange := Math_max [rangeX; rangeY] in
  let drawable := viewBoxSize - padding * 2 in
  let scale := drawable / maxRange in
  let offsetX := padding + (drawable - rangeX * scale) / 2 in
  let offsetY := padding + (drawable - rangeY * scale) / 2 in
  {| minX := minX; minY := minY; scale := scale;
     offsetX := offsetX; offsetY := offsetY |}.

Definition normPoint (p : TelemetryPoint) (params : NormParams) : Point :=
  {| x := (x_coordinate p - minX params) * scale params + offsetX params;
     y := (y_coordinate p - minY params) * scale params + offsetY params |}.

(** The extent of a list of coordinates: greatest minus least. *)
Definition coordRange (vals : list float) : float :=
  Math_max vals - Math_min vals.

Definition projectedXs (telemetry : list TelemetryPoint)
    (params : NormParams) : list float :=
  map (fun p => x (normPoint p params)) telemetry.

Definition projectedYs (telemetry : list TelemetryPoint)
    (params : NormParams) : list float :=
  map (fun p => y (normPoint p params)) telemetry.

(** The local [t] of [speedColor]. *)
Definition speedColor_t (speed min max : float) : float :=
  Math_max [0; Math_min [1; (speed - min) / or_else (max - min) 1]].

Definition sample (px py v : float) : TelemetryPoint :=
  {| x_coordinate := px; y_coordinate := py; speed := v;
     n_gear := None; throttle := None; brake := None |}.



End Binary64.

(** ** Playback controller

    The component keeps [currentIndex] and [isPlaying] in React state and the
    handle of the repeating timer in [intervalRef].  The browser's table of
    armed intervals is part of the model ([timers]), so that a timer that is
    overwritten without being cleared stays visible.  Every handler and every
    timer callback runs to completion on the committed state. *)

Module Playback.

Local Open Scope Z_scope.

Definition TimerId : Type := nat.

Record State : Type := {
  currentIndex : Z;
  isPlaying : bool;
  intervalRef : option TimerId;
  timers : list TimerId;
  nextTimer : TimerId
}.

(** State at mount: [useState(0)], [useState(false)], [useRef(null)]. *)
Definition mount : State :=
  {| currentIndex := 0; isPlaying := false; intervalRef := None;
     timers := []; nextTimer := 0%nat |}.

Definition setCurrentIndex (v : Z) (st : State) : State :=
  {| currentIndex := v; isPlaying := isPlaying st;
     intervalRef := intervalRef st; timers := timers st;
     nextTimer := nextTimer st |}.

Definition setIsPlaying (b : bool) (st : State) : State :=
  {| currentIndex := currentIndex st; isPlaying := b;
     intervalRef := intervalRef st; timers := timers st;
     nextTimer := nextTimer st |}.

Definition setIntervalRef (r : option TimerId) (st : State) : State :=
  {| currentIndex := currentIndex st; isPlaying := isPlaying st;
     intervalRef := r; timers := timers st; nextTimer := nextTimer st |}.

(** [setInterval(callback, PLAYBACK_STEP_MS)]: arms a new interval and returns
    its handle. *)
Definition setInterval (st : State) : TimerId * State :=
  (nextTimer st,
   {| currentIndex := currentIndex st; isPlaying := isPlaying st;
      intervalRef := intervalRef st; timers := nextTimer st :: timers st;
      nextTimer := S (nextTimer st) |}).

(** [clearInterval(handle)]; [clearInterval(null)] does nothing. *)
Definition clearInterval (h : option TimerId) (st : State) : State :=
  match h with
  | None => st
  | Some id =>
      {| currentIndex := currentIndex st; isPlaying := isPlaying st;
         intervalRef := intervalRef st;
         timers := List.remove Nat.eq_dec id (timers st);
         nextTimer := nextTimer st |}
  end.


Section Controller.

Variable telemetry : list TelemetryPoint.

(** [telemetry.length]. *)
Definition len : Z := Z.of_nat (List.length telemetry).

Definition stopPlayback (st : State) : State :=
  let st :=
    match intervalRef st with
    | Some _ => setIntervalRef None (clearInterval (intervalRef st) st)
    | None => st
    end in
  setIsPlaying false st.

(** The callback armed by [startPlayback]: the updater passed to
    [setCurrentIndex], applied to the current index. *)
Definition tick (st : State) : State :=
  let prev := currentIndex st in
  let next := prev + 1 in
  if next >=? len then
    let st := clearInterval (intervalRef st) st in
    let st := setIntervalRef None st in
    let st := setIsPlaying false st in
    setCurrentIndex prev st
  else setCurrentIndex next st.

Definition startPlayback (st : State) : State :=
  if len =? 0 then st
  else
    let st := setIsPlaying true st in
    let (id, st) := setInterval st in
    setIntervalRef (Some id) st.

Definition handlePlayPause (st : State) : State :=
  if isPlaying st then stopPlayback st
  else
    let st := if currentIndex st >=? len - 1
              then setCurrentIndex 0 st else st in
    startPlayback st.

(** [v] is [Number(e.target.value)]. *)
Definition handleSliderChange (v : Z) (st : State) : State :=
  let st := stopPlayback st in
  setCurrentIndex v st.



(** The play branch of [handlePlayPause]: restart from the beginning when at
    the end, then [startPlayback]. *)
Definition play (st : State) : State :=
  let st := if currentIndex st >=? len - 1
            then setCurrentIndex 0 st else st in
  startPlayback st.

Definition progress (st : State) : Q :=
  if 1 <? len
  then (inject_Z (currentIndex st) / inject_Z (len - 1) * 100)%Q
  else 0%Q.

(** What can happen to a mounted component: a click on the play/pause
    button, a change of the range input, a tick of an armed interval. *)
Inductive event : Type :=
  | PlayPauseClick
  | SliderChange (v : Z)
  | TimerTick (id : TimerId).

(** The range input is rendered with [min={0}] and [max={telemetry.length - 1}]
    and reports values between them; only an armed interval ticks. *)
Definition enabled (st : State) (e : event) : Prop :=
  match e with
  | PlayPauseClick => True
  | SliderChange v => 0 <= v <= len - 1
  | TimerTick id => In id (timers st)
  end.

Definition handle (st : State) (e : event) : State :=
  match e with
  | PlayPauseClick => handlePlayPause st
  | SliderChange v => handleSliderChange v st
  | TimerTick _ => tick st
  end.

Inductive reachable : State -> Prop :=
  | reachable_mount : reachable mount
  | reachable_step (st : State) (e : event) :
      reachable st -> enabled st e -> reachable (handle st e).

(** Run a list of events from a state, ignoring whether they are enabled. *)
Definition run (st : State) (es : list event) : State :=
  fold_left handle es st.






(** [telemetry[currentIndex] ?? null]: no element at a negative index or at
    one from [telemetry.length] on. *)
Definition current (st : State) : option TelemetryPoint :=
  if currentIndex st <? 0 then None
  else nth_error telemetry (Z.to_nat (currentIndex st)).

(** [current ? normPoint(current, normParams) : null], with the
    [normParams] of the component body. *)
Definition carPos (st : State) : option Point :=
  match current st with
  | Some c =>
      let? normParams := buildNormParams telemetry SIZE PADDING in
      Some (normPoint c normParams)
  | None => None
  end.

(** The index stays on the sequence (on 0 when the sequence is empty). *)
Definition index_inv (st : State) : Prop :=
  0 <= currentIndex st <= Z.max 0 (len - 1).

End Controller.

(** The clean-up of the mount effect:
    [if (intervalRef.current) clearInterval(intervalRef.current)].  A handle
    returned by [setInterval] is never falsy, so the test is a null test. *)
Definition unmount (st : State) : State :=
  match intervalRef st with
  | Some _ => clearInterval (intervalRef st) st
  | None => st
  end.

(** The handle is stored exactly when the component is playing, and the
    armed intervals are exactly the stored handle. *)
Definition timer_inv (st : State) : Prop :=
  isPlaying st = match intervalRef st with Some _ => true | None => false end
  /\ timers st = match intervalRef st with Some id => [id] | None => [] end.

End Playback.

(** ** Sample data for concrete runs *)

Definition sample (px py v : Q) : TelemetryPoint :=
  {| x_coordinate := px; y_coordinate := py; speed := v;
     n_gear := None; throttle := None; brake := None |}.

(** Three samples of a small track. *)
Definition track3 : list TelemetryPoint :=
  [sample 0 0 100; sample 10 5 100; sample (-3 # 7) 2 120].

(** Ten samples on a diagonal. *)
Definition track10 : list TelemetryPoint :=
  map (fun k => sample (inject_Z (Z.of_nat k)) (inject_Z (Z.of_nat k)) 200)
      (seq 0 10).

(** A sequence of one sample. *)
Definition track1 : list TelemetryPoint := [sample 5 7 200].

(** Three samples with one speed, written in different ways. *)
Definition steady3 : list TelemetryPoint :=
  [sample 0 0 200; sample 3 4 (400 # 2); sample 1 9 200].

(** * Properties *)

(** ** Facts about the built-ins *)

Section BuiltinFacts.

Local Open Scope Q_scope.

Lemma fold_Qmin_le_acc (l : list Q) (a : Q) : fold_left Qmin l a <= a.
Proof.
  revert a; induction l as [|b l IH]; intro a; simpl.
  - apply Qle_refl.
  - eapply Qle_trans; [apply IH | apply Q.le_min_l].
Qed.

Lemma fold_Qmin_le_In (l : list Q) (a b : Q) :
  In b l -> fold_left Qmin l a <= b.
Proof.
  revert a; induction l as [|c l IH]; intros a Hin; simpl in *.
  - contradiction.
  - destruct Hin as [-> | Hin].
    + eapply Qle_trans; [apply fold_Qmin_le_acc | apply Q.le_min_r].
    + apply IH, Hin.
Qed.

Lemma fold_Qmax_ge_acc (l : list Q) (a : Q) : a <= fold_left Qmax l a.
Proof.
  revert a; induction l as [|b l IH]; intro a; simpl.
  - apply Qle_refl.
  - eapply Qle_trans; [apply Q.le_max_l | apply IH].
Qed.

Lemma fold_Qmax_ge_In (l : list Q) (a b : Q) :
  In b l -> b <= fold_left Qmax l a.
Proof.
  revert a; induction l as [|c l IH]; intros a Hin; simpl in *.
  - contradiction.
  - destruct Hin as [-> | Hin].
    + eapply Qle_trans; [apply Q.le_max_r | apply fold_Qmax_ge_acc].
    + apply IH, Hin.
Qed.

Lemma fold_Qmin_attained (l : list Q) (a : Q) :
  exists b, In b (a :: l) /\ fold_left Qmin l a == b.
Proof.
  revert a; induction l as [|c l IH]; intro a; simpl.
  - exists a; split; [now left | reflexivity].
  - destruct (IH (Qmin a c)) as [b [[Hb | Hb] Heq]].
    + destruct (Q.min_dec a c) as [Hm | Hm].
      * exists a; split; [now left |]. rewrite Heq, <- Hb. exact Hm.
      * exists c; split; [right; now left |]. rewrite Heq, <- Hb. exact Hm.
    + exists b; split; [right; now right | exact Heq].
Qed.

Lemma fold_Qmax_attained (l : list Q) (a : Q) :
  exists b, In b (a :: l) /\ fold_left Qmax l a == b.
Proof.
  revert a; induction l as [|c l IH]; intro a; simpl.
  - exists a; split; [now left | reflexivity].
  - destruct (IH (Qmax a c)) as [b [[Hb | Hb] Heq]].
    + destruct (Q.max_dec a c) as [Hm | Hm].
      * exists a; split; [now left |]. rewrite Heq, <- Hb. exact Hm.
      * exists c; split; [right; now left |]. rewrite Heq, <- Hb. exact Hm.
    + exists b; split; [right; now right | exact Heq].
Qed.

Lemma Math_min_some (xs : list Q) :
  xs <> [] -> exists m, JS.Math_min xs = Some m.
Proof. destruct xs; [congruence | eexists; reflexivity]. Qed.

Lemma Math_max_some (xs : list Q) :
  xs <> [] -> exists m, JS.Math_max xs = Some m.
Proof. destruct xs; [congruence | eexists; reflexivity]. Qed.

Lemma Math_min_le (xs : list Q) (m a : Q) :
  JS.Math_min xs = Some m -> In a xs -> m <= a.
Proof.
  destruct xs as [|b l]; simpl; [discriminate |].
  intros [= <-] [-> | Hin].
  - apply fold_Qmin_le_acc.
  - apply fold_Qmin_le_In, Hin.
Qed.

Lemma Math_max_ge (xs : list Q) (m a : Q) :
  JS.Math_max xs = Some m -> In a xs -> a <= m.
Proof.
  destruct xs as [|b l]; simpl; [discriminate |].
  intros [= <-] [-> | Hin].
  - apply fold_Qmax_ge_acc.
  - apply fold_Qmax_ge_In, Hin.
Qed.

Lemma Math_min_attained (xs : list Q) (m : Q) :
  JS.Math_min xs = Some m -> exists a, In a xs /\ m == a.
Proof.
  destruct xs as [|b l]; simpl; [discriminate |].
  intros [= <-]. apply fold_Qmin_attained.
Qed.

Lemma Math_max_attained (xs : list Q) (m : Q) :
  JS.Math_max xs = Some m -> exists a, In a xs /\ m == a.
Proof.
  destruct xs as [|b l]; simpl; [discriminate |].
  intros [= <-]. apply fold_Qmax_attained.
Qed.

(** On a non-empty list the minimum is below the maximum. *)
Lemma Math_min_le_max (xs : list Q) (mn mx : Q) :
  JS.Math_min xs = Some mn -> JS.Math_max xs = Some mx -> mn <= mx.
Proof.
  intros Hmn Hmx.
  destruct (Math_min_attained _ _ Hmn) as [a [Ha Heq]].
  rewrite Heq. eapply Math_max_ge; eassumption.
Qed.

Lemma or_else_zero (a d : Q) : a == 0 -> JS.or_else a d = d.
Proof.
  intro H. unfold JS.or_else.
  now rewrite (proj2 (Qeq_bool_iff a 0) H).
Qed.

Lemma or_else_nonzero (a d : Q) : ~ a == 0 -> JS.or_else a d = a.
Proof.
  intro H. unfold JS.or_else.
  destruct (Qeq_bool a 0) eqn:E; [| reflexivity].
  apply Qeq_bool_iff in E. contradiction.
Qed.

(** A range with its zero replaced by 1 is positive and covers the raw one. *)
Lemma or_else_range (a : Q) :
  0 <= a -> 0 < JS.or_else a 1 /\ a <= JS.or_else a 1.
Proof.
  intro Ha. destruct (Qeq_dec a 0) as [E | E].
  - rewrite (or_else_zero _ _ E). rewrite E. split; lra.
  - rewrite (or_else_nonzero _ _ E). split; [| lra].
    destruct (Qlt_le_dec 0 a) as [H | H]; [exact H |].
    exfalso. apply E. lra.
Qed.

Lemma div_some (a b : Q) : ~ b == 0 -> JS.div a b = Some (a / b).
Proof.
  intro H. unfold JS.div.
  destruct (Qeq_bool b 0) eqn:E; [| reflexivity].
  apply Qeq_bool_iff in E. contradiction.
Qed.

End BuiltinFacts.

(** ** Projection engine *)

Section ProjectionFacts.

Local Open Scope Q_scope.

(** What [buildNormParams] computes on a non-empty sequence: the four extrema
    exist, the widest range is positive, and the division is defined. *)
Lemma buildNormParams_nonempty (telemetry : list TelemetryPoint) (S P : Q) :
  telemetry <> [] ->
  exists mnX mxX mnY mxY,
    JS.Math_min (map x_coordinate telemetry) = Some mnX /\
    JS.Math_max (map x_coordinate telemetry) = Some mxX /\
    JS.Math_min (map y_coordinate telemetry) = Some mnY /\
    JS.Math_max (map y_coordinate telemetry) = Some mxY /\
    0 < Qmax (JS.or_else (mxX - mnX) 1) (JS.or_else (mxY - mnY) 1) /\
    buildNormParams telemetry S P =
      Some {| minX := mnX; minY := mnY;
              scale := (S - P * 2)
                       / Qmax (JS.or_else (mxX - mnX) 1)
                              (JS.or_else (mxY - mnY) 1);
              offsetX := P + ((S - P * 2) - JS.or_else (mxX - mnX) 1
                                * ((S - P * 2)
                                   / Qmax (JS.or_else (mxX - mnX) 1)
                                          (JS.or_else (mxY - mnY) 1))) / 2;
              offsetY := P + ((S - P * 2) - JS.or_else (mxY - mnY) 1
                                * ((S - P * 2)
                                   / Qmax (JS.or_else (mxX - mnX) 1)
                                          (JS.or_else (mxY - mnY) 1))) / 2 |}.
Proof.
  intro Hne.
  assert (Hx : map x_coordinate telemetry <> [])
    by (destruct telemetry; [congruence | discriminate]).
  assert (Hy : map y_coordinate telemetry <> [])
    by (destruct telemetry; [congruence | discriminate]).
  destruct (Math_min_some _ Hx) as [mnX HmnX].
  destruct (Math_max_some _ Hx) as [mxX HmxX].
  destruct (Math_min_some _ Hy) as [mnY HmnY].
  destruct (Math_max_some _ Hy) as [mxY HmxY].
  exists mnX, mxX, mnY, mxY.
  assert (HrX : 0 <= mxX - mnX)
    by (pose proof (Math_min_le_max _ _ _ HmnX HmxX); lra).
  destruct (or_else_range _ HrX) as [HposX _].
  assert (Hpos : 0 < Qmax (JS.or_else (mxX - mnX) 1) (JS.or_else (mxY - mnY) 1)).
  { eapply Qlt_le_trans; [exact HposX | apply Q.le_max_l]. }
  repeat (split; [assumption |]).
  unfold buildNormParams.
  rewrite HmnX, HmxX, HmnY, HmxY. simpl.
  rewrite div_some by lra. reflexivity.
Qed.

(** The algebra behind containment: a coordinate [u] above the minimum, within
    the (substituted) range [r], itself within the widest range [m]. *)
Lemma projected_within (P d u r m : Q) :
  0 <= d -> 0 < m -> 0 <= u -> u <= r -> r <= m ->
  P <= u * (d / m) + (P + (d - r * (d / m)) / 2) <= P + d.
Proof.
  intros Hd Hm Hu Hur Hrm.
  assert (Hs : 0 <= d / m).
  { apply Qle_shift_div_l; [exact Hm | lra]. }
  assert (Hus : 0 <= u * (d / m)) by (apply Qmult_le_0_compat; assumption).
  assert (Hurs : u * (d / m) <= r * (d / m))
    by (apply Qmult_le_compat_r; assumption).
  assert (Hrs : r * (d / m) <= d).
  { assert (E : m * (d / m) == d) by (field; lra).
    rewrite <- E at 2. apply Qmult_le_compat_r; assumption. }
  set (us := u * (d / m)) in *. set (rs := r * (d / m)) in *.
  clearbody us rs. clear Hs.
  unfold Qdiv. change (/ 2) with (1 # 2). split; lra.
Qed.

Lemma nonempty_of_In {A : Type} (a : A) (l : list A) : In a l -> l <> [].
Proof. destruct l; [contradiction | discriminate]. Qed.

(** Containment for any square whose padding leaves room to draw. *)
Lemma containment (telemetry : list TelemetryPoint) (S P : Q)
    (p : TelemetryPoint) :
  0 <= S - P * 2 ->
  In p telemetry ->
  exists params,
    buildNormParams telemetry S P = Some params /\
    P <= x (normPoint p params) <= S - P /\
    P <= y (normPoint p params) <= S - P.
Proof.
  intros Hd Hin.
  destruct (buildNormParams_nonempty telemetry S P (nonempty_of_In _ _ Hin))
    as (mnX & mxX & mnY & mxY & HmnX & HmxX & HmnY & HmxY & Hpos & Hb).
  eexists; split; [exact Hb |].
  assert (HinX : In (x_coordinate p) (map x_coordinate telemetry))
    by (apply in_map, Hin).
  assert (HinY : In (y_coordinate p) (map y_coordinate telemetry))
    by (apply in_map, Hin).
  pose proof (Math_min_le _ _ _ HmnX HinX) as HloX.
  pose proof (Math_max_ge _ _ _ HmxX HinX) as HhiX.
  pose proof (Math_min_le _ _ _ HmnY HinY) as HloY.
  pose proof (Math_max_ge _ _ _ HmxY HinY) as HhiY.
  assert (HrX : 0 <= mxX - mnX) by lra.
  assert (HrY : 0 <= mxY - mnY) by lra.
  destruct (or_else_range _ HrX) as [_ HcX].
  destruct (or_else_range _ HrY) as [_ HcY].
  assert (HuX : 0 <= x_coordinate p - mnX) by lra.
  assert (HuY : 0 <= y_coordinate p - mnY) by lra.
  assert (HvX : x_coordinate p - mnX <= JS.or_else (mxX - mnX) 1) by lra.
  assert (HvY : y_coordinate p - mnY <= JS.or_else (mxY - mnY) 1) by lra.
  pose proof (projected_within P _ _ _ _ Hd Hpos HuX HvX (Q.le_max_l _ _))
    as [LX UX].
  pose proof (projected_within P _ _ _ _ Hd Hpos HuY HvY (Q.le_max_r _ _))
    as [LY UY].
  cbn [normPoint x y minX minY scale offsetX offsetY].
  assert (E : P + (S - P * 2) == S - P) by ring.
  rewrite E in UX, UY.
  repeat split; assumption.
Qed.








(** C7, as amended (single-point track). For a sequence of exactly one
    sample, whatever the square and the padding: both zero ranges are replaced
    by 1, the divisor of the scale is 1 and the division is defined, the
    scale is the drawable width, and the sample is projected onto
    [(padding, padding)], the corner of the padded square. *)
Theorem single_point_track (p : TelemetryPoint) (S P : Q) :
  JS.or_else (x_coordinate p - x_coordinate p) 1 = 1 /\
  JS.or_else (y_coordinate p - y_coordinate p) 1 = 1 /\
  JS.div (S - P * 2) (Qmax 1 1) = Some ((S - P * 2) / Qmax 1 1) /\
  exists params,
    buildNormParams [p] S P = Some params /\
    scale params == S - P * 2 /\
    offsetX params == P /\ offsetY params == P /\
    x (normPoint p params) == P /\ y (normPoint p params) == P.
Proof.
  assert (Ex : JS.or_else (x_coordinate p - x_coordinate p) 1 = 1)
    by (apply or_else_zero; ring).
  assert (Ey : JS.or_else (y_coordinate p - y_coordinate p) 1 = 1)
    by (apply or_else_zero; ring).
  split; [exact Ex |]. split; [exact Ey |]. split; [reflexivity |].
  unfold buildNormParams. cbn [map JS.Math_min JS.Math_max fold_left bind].
  rewrite Ex, Ey.
  change (JS.div (S - P * 2) (Qmax 1 1)) with (Some ((S - P * 2) / Qmax 1 1)).
  cbn [bind]. eexists; split; [reflexivity |].
  cbn [normPoint x y minX minY scale offsetX offsetY].
  change (Qmax 1 1) with 1.
  repeat split; field.
Qed.

(** C7, the claim as stated fails: the one sample of [track1], in the
    component's 800 square with padding 40, is drawn at (40, 40) and not at
    the centre (400, 400) of the square. *)
Lemma single_point_not_centred :
  exists params,
    buildNormParams track1 SIZE PADDING = Some params /\
    x (normPoint (sample 5 7 200) params) == 40 /\
    y (normPoint (sample 5 7 200) params) == 40 /\
    ~ x (normPoint (sample 5 7 200) params) == SIZE / 2 /\
    ~ x (normPoint (sample 5 7 200) params)
        == PADDING + (SIZE - PADDING * 2) / 2.
Proof.
  eexists; split; [vm_compute; reflexivity |].
  repeat split; vm_compute; congruence.
Qed.

(** The extrema of a list whose members all equal [v]. *)
Lemma Math_min_constant (xs : list Q) (v m : Q) :
  (forall a, In a xs -> a == v) -> JS.Math_min xs = Some m -> m == v.
Proof.
  intros Hall Hm. destruct (Math_min_attained _ _ Hm) as [a [Ha ->]].
  apply Hall, Ha.
Qed.

Lemma Math_max_constant (xs : list Q) (v m : Q) :
  (forall a, In a xs -> a == v) -> JS.Math_max xs = Some m -> m == v.
Proof.
  intros Hall Hm. destruct (Math_max_attained _ _ Hm) as [a [Ha ->]].
  apply Hall, Ha.
Qed.

Lemma Math_round_comp (a b : Q) : a == b -> JS.Math_round a = JS.Math_round b.
Proof.
  intro E. unfold JS.Math_round. apply Qfloor_comp. rewrite E. reflexivity.
Qed.

(** [speedColor] at [t == 0]. *)
Lemma speedColor_of_t (s mn mx t : Q) :
  speedColor_t s mn mx = Some t -> t == 0 ->
  speedColor s mn mx = Some "rgb(30,120,255)"%string.
Proof.
  intros Ht E. unfold speedColor. rewrite Ht. cbn [bind].
  rewrite (Math_round_comp (30 + t * 225) 30) by (rewrite E; ring).
  rewrite (Math_round_comp (120 - t * 100) 120) by (rewrite E; ring).
  rewrite (Math_round_comp (255 - t * 230) 255) by (rewrite E; ring).
  reflexivity.
Qed.

(** C9 (degenerate speed range). When every sample of a sequence has the
    speed [v], then for each of its samples: the minimum and the maximum speed
    exist, the zero denominator [maxSpeed - minSpeed] is replaced by 1 so that
    the division of [speedColor] is defined, its parameter [t] is 0, and the
    colour is the same string, [rgb(30,120,255)]. *)
Theorem degenerate_speed_range (telemetry : list TelemetryPoint) (v : Q)
    (p : TelemetryPoint) :
  (forall q, In q telemetry -> speed q == v) ->
  In p telemetry ->
  exists mn mx,
    minSpeed telemetry = Some mn /\
    maxSpeed telemetry = Some mx /\
    JS.or_else (mx - mn) 1 = 1 /\
    JS.div (speed p - mn) (JS.or_else (mx - mn) 1)
      = Some ((speed p - mn) / 1) /\
    (exists t, speedColor_t (speed p) mn mx = Some t /\ t == 0) /\
    speedColor (speed p) mn mx = Some "rgb(30,120,255)"%string.
Proof.
  intros Hall Hin.
  assert (Hne : map speed telemetry <> []).
  { apply nonempty_of_In with (a := speed p). apply in_map, Hin. }
  assert (Hall' : forall a, In a (map speed telemetry) -> a == v).
  { intros a Ha. apply in_map_iff in Ha. destruct Ha as [q [<- Hq]].
    apply Hall, Hq. }
  destruct (Math_min_some _ Hne) as [mn Hmn].
  destruct (Math_max_some _ Hne) as [mx Hmx].
  pose proof (Math_min_constant _ _ _ Hall' Hmn) as Emn.
  pose proof (Math_max_constant _ _ _ Hall' Hmx) as Emx.
  pose proof (Hall p Hin) as Ep.
  assert (Eor : JS.or_else (mx - mn) 1 = 1).
  { apply or_else_zero. rewrite Emn, Emx. ring. }
  assert (Ht : speedColor_t (speed p) mn mx
               = Some (Qmax 0 (Qmin 1 ((speed p - mn) / 1)))).
  { unfold speedColor_t. rewrite Eor. reflexivity. }
  assert (Er : (speed p - mn) / 1 == 0).
  { rewrite Ep, Emn. field. }
  assert (E0 : Qmax 0 (Qmin 1 ((speed p - mn) / 1)) == 0).
  { apply Q.max_l. eapply Qle_trans; [apply Q.le_min_r |].
    rewrite Er. apply Qle_refl. }
  exists mn, mx.
  split; [exact Hmn |]. split; [exact Hmx |]. split; [exact Eor |].
  split; [rewrite Eor; reflexivity |].
  split; [eexists; split; [exact Ht | exact E0] |].
  eapply speedColor_of_t; eassumption.
Qed.

Lemma mapi_from_map {A B C : Type} (g : A -> B) (f : B -> nat -> C)
    (i : nat) (l : list A) :
  mapi_from f i (map g l) = mapi_from (fun a k => f (g a) k) i l.
Proof.
  revert i; induction l as [|a l IH]; intro i; simpl.
  - reflexivity.
  - now rewrite IH.
Qed.

(** [toFixed] prints every number below [10^21] in absolute value. *)
Lemma toFixed_some (v : Q) (f : nat) :
  - inject_Z (10 ^ 21) < v -> v < inject_Z (10 ^ 21) ->
  exists str, JS.toFixed v f = Some str.
Proof.
  intros Hlo Hhi. unfold JS.toFixed.
  destruct (Qle_bool 0 v) eqn:Hs; cbn [negb].
  - destruct (Qle_bool (inject_Z (10 ^ 21)) v) eqn:E.
    + apply Qle_bool_iff in E. exfalso. apply (Qlt_not_le _ _ Hhi E).
    + eexists; reflexivity.
  - destruct (Qle_bool (inject_Z (10 ^ 21)) (- v)) eqn:E.
    + apply Qle_bool_iff in E. exfalso.
      apply (Qlt_not_le (- v) (inject_Z (10 ^ 21))); [| exact E].
      apply Qopp_lt_compat in Hlo. rewrite Qopp_involutive in Hlo. exact Hlo.
    + eexists; reflexivity.
Qed.

Lemma all_some_mapi_from {A B : Type} (f : A -> nat -> option B)
    (l : list A) (i : nat) :
  (forall a k, In a l -> exists b, f a k = Some b) ->
  exists r, all_some (mapi_from f i l) = Some r.
Proof.
  revert i; induction l as [|a l IH]; intros i Hall; simpl.
  - eexists; reflexivity.
  - destruct (Hall a i (or_introl eq_refl)) as [b ->].
    destruct (IH (S i) (fun a' k H => Hall a' k (or_intror H))) as [r ->].
    eexists; reflexivity.
Qed.

(** In the component's square every sample has a path command, so the path
    string is produced. *)
Lemma buildPathData_produced (telemetry : list TelemetryPoint)
    (params : NormParams) :
  buildNormParams telemetry SIZE PADDING = Some params ->
  exists path, buildPathData telemetry params = Some path.
Proof.
  intro Hb. unfold buildPathData, mapi.
  destruct (all_some_mapi_from
              (fun p i => pathCommand (normPoint p params) i) telemetry 0)
    as [r ->]; [| eexists; reflexivity].
  intros p k Hin.
  assert (Hd : 0 <= SIZE - PADDING * 2) by (unfold SIZE, PADDING; lra).
  destruct (containment telemetry SIZE PADDING p Hd Hin)
    as (params' & Hb' & Hx & Hy).
  rewrite Hb in Hb'. injection Hb' as <-.
  unfold SIZE, PADDING in Hx, Hy. unfold pathCommand.
  destruct (toFixed_some (x (normPoint p params)) 2) as [sx ->].
  { eapply Qlt_le_trans; [| apply Hx]. reflexivity. }
  { eapply Qle_lt_trans; [apply Hx |]. reflexivity. }
  destruct (toFixed_some (y (normPoint p params)) 2) as [sy ->].
  { eapply Qlt_le_trans; [| apply Hy]. reflexivity. }
  { eapply Qle_lt_trans; [apply Hy |]. reflexivity. }
  eexists; reflexivity.
Qed.

(** C10 (the two variants agree). For a non-empty sequence and any square
    size and padding, the earlier [buildPathData], which derives the
    normalisation inline, returns exactly what the later [buildPathData]
    returns on the parameters of [buildNormParams]; in the 800 square with
    padding 40 both return one path string; and the start marker the earlier
    component computes inline is [normPoint] of the first sample under the
    parameters for that square. *)
Theorem legacy_variant_agrees (telemetry : list TelemetryPoint) (S P : Q)
    (first : TelemetryPoint) (rest : list TelemetryPoint) :
  telemetry = first :: rest ->
  (exists params,
     buildNormParams telemetry S P = Some params /\
     Legacy.buildPathData telemetry S P = buildPathData telemetry params) /\
  (exists params path,
     buildNormParams telemetry SIZE PADDING = Some params /\
     Legacy.pathData telemetry = Some path /\
     buildPathData telemetry params = Some path) /\
  (exists params,
     buildNormParams telemetry SIZE PADDING = Some params /\
     Legacy.startMarker telemetry = Some (normPoint first params)).
Proof.
  intro Ht.
  assert (Hne : telemetry <> []) by (rewrite Ht; discriminate).
  assert (Hpath : forall S' P', exists params,
            buildNormParams telemetry S' P' = Some params /\
            Legacy.buildPathData telemetry S' P'
              = buildPathData telemetry params).
  { intros S' P'.
    destruct (buildNormParams_nonempty telemetry S' P' Hne)
      as (mnX & mxX & mnY & mxY & HmnX & HmxX & HmnY & HmxY & Hpos & Hb).
    eexists; split; [exact Hb |].
    unfold Legacy.buildPathData, buildPathData, mapi.
    rewrite HmnX, HmxX, HmnY, HmxY. cbn [bind].
    rewrite div_some by lra. cbn [bind].
    rewrite mapi_from_map. reflexivity. }
  split; [apply Hpath |]. split.
  - destruct (Hpath SIZE PADDING) as (params & Hb & Heq).
    destruct (buildPathData_produced telemetry params Hb) as [path Hp].
    exists params, path. split; [exact Hb |]. split; [| exact Hp].
    unfold Legacy.pathData. rewrite Heq. exact Hp.
  - destruct (buildNormParams_nonempty telemetry SIZE PADDING Hne)
      as (mnX & mxX & mnY & mxY & HmnX & HmxX & HmnY & HmxY & Hpos & Hb).
    eexists; split; [exact Hb |].
    unfold Legacy.startMarker. rewrite Ht. rewrite <- Ht.
    rewrite HmnX, HmxX, HmnY, HmxY. cbn [bind].
    rewrite div_some by lra. reflexivity.
Qed.

(** Concrete runs of the theorems above. *)



Lemma degenerate_speed_range_witness :
  exists mn mx,
    minSpeed steady3 = Some mn /\
    maxSpeed steady3 = Some mx /\
    JS.or_else (mx - mn) 1 = 1 /\
    JS.div (speed (sample 3 4 (400 # 2)) - mn) (JS.or_else (mx - mn) 1)
      = Some ((speed (sample 3 4 (400 # 2)) - mn) / 1) /\
    (exists t, speedColor_t (speed (sample 3 4 (400 # 2))) mn mx = Some t
               /\ t == 0) /\
    speedColor (speed (sample 3 4 (400 # 2))) mn mx
      = Some "rgb(30,120,255)"%string.
Proof.
  apply (degenerate_speed_range steady3 200).
  - intros q [<- | [<- | [<- | []]]]; reflexivity.
  - right; left; reflexivity.
Defined.

Lemma legacy_variant_agrees_witness :
  (exists params,
     buildNormParams track3 SIZE PADDING = Some params /\
     Legacy.buildPathData track3 SIZE PADDING = buildPathData track3 params) /\
  (exists params path,
     buildNormParams track3 SIZE PADDING = Some params /\
     Legacy.pathData track3 = Some path /\
     buildPathData track3 params = Some path) /\
  (exists params,
     buildNormParams track3 SIZE PADDING = Some params /\
     Legacy.startMarker track3 = Some (normPoint (sample 0 0 100) params)).
Proof.
  apply (legacy_variant_agrees track3 SIZE PADDING (sample 0 0 100)
           [sample 10 5 100; sample (-3 # 7) 2 120]).
  reflexivity.
Defined.

(** The path both variants draw for [track3]. *)
Example track3_pathData :
  Legacy.pathData track3
    = Some "M 69.59 227.40 L 760.00 572.60 L 40.00 365.48"%string
  /\ (let? params := buildNormParams track3 SIZE PADDING in
      buildPathData track3 params)
    = Some "M 69.59 227.40 L 760.00 572.60 L 40.00 365.48"%string.
Proof. split; vm_compute; reflexivity. Qed.

(** Colours at the ends and in the middle of a speed range. *)
Example speedColor_samples :
  speedColor 100 100 120 = Some "rgb(30,120,255)"%string /\
  speedColor 110 100 120 = Some "rgb(143,70,140)"%string /\
  speedColor 120 100 120 = Some "rgb(255,20,25)"%string.
Proof. repeat split; vm_compute; reflexivity. Qed.

End ProjectionFacts.


(** ** Playback controller *)

Module PlaybackFacts.

Import Playback.

Local Open Scope Z_scope.

Lemma remove_single (id : TimerId) : List.remove Nat.eq_dec id [id] = [].
Proof. simpl. destruct (Nat.eq_dec id id); [reflexivity | congruence]. Qed.

Lemma stopPlayback_fields (st : State) :
  currentIndex (stopPlayback st) = currentIndex st /\
  isPlaying (stopPlayback st) = false /\
  intervalRef (stopPlayback st) = None /\
  (forall id, intervalRef st = Some id -> ~ In id (timers (stopPlayback st))).
Proof.
  unfold stopPlayback. destruct (intervalRef st) as [id|] eqn:E; cbn.
  - repeat split; try reflexivity.
    intros id' [= <-]. apply remove_In.
  - repeat split; try reflexivity; try assumption. discriminate.
Qed.

Lemma stopPlayback_inv (st : State) :
  timer_inv st -> timer_inv (stopPlayback st) /\ timers (stopPlayback st) = [].
Proof.
  intros [Hp Ht]. unfold stopPlayback, timer_inv.
  destruct (intervalRef st) as [id|] eqn:E; cbn.
  - rewrite Ht, remove_single. auto.
  - rewrite E. auto.
Qed.

Lemma startPlayback_inv (telemetry : list TelemetryPoint) (st : State) :
  timer_inv st -> isPlaying st = false ->
  timer_inv (startPlayback telemetry st).
Proof.
  intros [Hp Ht] Hn. unfold startPlayback.
  destruct (len telemetry =? 0); [split; assumption |].
  destruct (intervalRef st) as [id|] eqn:E; [congruence |].
  unfold timer_inv; cbn. rewrite Ht. auto.
Qed.

Lemma tick_inv (telemetry : list TelemetryPoint) (st : State) :
  timer_inv st -> timer_inv (tick telemetry st).
Proof.
  intros [Hp Ht]. unfold tick.
  destruct (currentIndex st + 1 >=? len telemetry).
  - unfold timer_inv; cbn. destruct (intervalRef st) as [id|]; cbn.
    + rewrite Ht, remove_single. auto.
    + auto.
  - split; assumption.
Qed.

Lemma setCurrentIndex_inv (v : Z) (st : State) :
  timer_inv st -> timer_inv (setCurrentIndex v st).
Proof. intros [Hp Ht]. split; assumption. Qed.

Lemma handle_timer_inv (telemetry : list TelemetryPoint) (st : State)
    (e : event) :
  timer_inv st -> timer_inv (handle telemetry st e).
Proof.
  intro H. destruct e as [| v | id]; cbn [handle].
  - unfold handlePlayPause. destruct (isPlaying st) eqn:Hp.
    + apply stopPlayback_inv, H.
    + destruct (currentIndex st >=? len telemetry - 1).
      * apply startPlayback_inv; [apply setCurrentIndex_inv, H | exact Hp].
      * apply startPlayback_inv; assumption.
  - unfold handleSliderChange. apply setCurrentIndex_inv, stopPlayback_inv, H.
  - apply tick_inv, H.
Qed.

Lemma startPlayback_index (telemetry : list TelemetryPoint) (st : State) :
  currentIndex (startPlayback telemetry st) = currentIndex st.
Proof.
  unfold startPlayback. destruct (len telemetry =? 0); reflexivity.
Qed.

Lemma handle_index_inv (telemetry : list TelemetryPoint) (st : State)
    (e : event) :
  enabled telemetry st e ->
  index_inv telemetry st -> index_inv telemetry (handle telemetry st e).
Proof.
  unfold index_inv. intros He H. destruct e as [| v | id]; cbn [handle].
  - unfold handlePlayPause. destruct (isPlaying st).
    + destruct (stopPlayback_fields st) as [-> _]. exact H.
    + rewrite startPlayback_index.
      destruct (currentIndex st >=? len telemetry - 1); cbn; lia.
  - cbn in He. unfold handleSliderChange. cbn. lia.
  - unfold tick.
    destruct (currentIndex st + 1 >=? len telemetry) eqn:E; cbn; [exact H |].
    rewrite Z.geb_leb in E. apply Z.leb_gt in E. lia.
Qed.

Lemma reachable_inv (telemetry : list TelemetryPoint) (st : State) :
  reachable telemetry st -> timer_inv st /\ index_inv telemetry st.
Proof.
  induction 1 as [| st e Hr [IHt IHi] He].
  - split; [split; reflexivity | unfold index_inv; cbn; lia].
  - split; [apply handle_timer_inv, IHt | apply handle_index_inv; assumption].
Qed.





(** C4 (auto-stop). A tick that fires while [currentIndex = length - 1]
    cancels the stored timer, clears the handle, sets [isPlaying] to false and
    leaves the index at [length - 1]; and a tick from any index up to
    [length - 1] never moves the index back nor past [length - 1]. *)
Theorem tick_auto_stop (telemetry : list TelemetryPoint) (st : State) :
  (currentIndex st = len telemetry - 1 ->
   let st' := tick telemetry st in
   currentIndex st' = len telemetry - 1 /\
   isPlaying st' = false /\
   intervalRef st' = None /\
   (forall id, intervalRef st = Some id -> ~ In id (timers st')) /\
   (timer_inv st -> timers st' = [])) /\
  (currentIndex st <= len telemetry - 1 ->
   currentIndex st <= currentIndex (tick telemetry st) <= len telemetry - 1).
Proof.
  split.
  - intro Hi. cbv zeta. unfold tick.
    replace (currentIndex st + 1 >=? len telemetry) with true
      by (symmetry; rewrite Z.geb_leb; apply Z.leb_le; lia).
    cbn [currentIndex isPlaying intervalRef timers
         setCurrentIndex setIsPlaying setIntervalRef].
    split; [exact Hi |]. do 2 (split; [reflexivity |]).
    split.
    + intros id Hid. rewrite Hid. cbn. apply remove_In.
    + intros [_ Ht]. destruct (intervalRef st) as [id|]; cbn.
      * rewrite Ht. apply remove_single.
      * exact Ht.
  - intro Hi. unfold tick.
    destruct (currentIndex st + 1 >=? len telemetry) eqn:E; cbn.
    + lia.
    + rewrite Z.geb_leb in E. apply Z.leb_gt in E. lia.
Qed.

Lemma tick_auto_stop_witness :
  let st := run track3 mount
              [PlayPauseClick; TimerTick 0%nat; TimerTick 0%nat] in
  currentIndex st = len track3 - 1 /\ timer_inv st /\
  currentIndex (tick track3 st) = len track3 - 1 /\
  isPlaying (tick track3 st) = false /\
  intervalRef (tick track3 st) = None /\
  timers (tick track3 st) = [] /\
  currentIndex st <= currentIndex (tick track3 st) <= len track3 - 1.
Proof.
  cbv zeta.
  set (st := run track3 mount
               [PlayPauseClick; TimerTick 0%nat; TimerTick 0%nat]).
  assert (Hi : currentIndex st = len track3 - 1) by reflexivity.
  assert (Hinv : timer_inv st) by (split; reflexivity).
  assert (Hle : currentIndex st <= len track3 - 1)
    by (vm_compute; discriminate).
  destruct (tick_auto_stop track3 st) as [Hstop Hmono].
  destruct (Hstop Hi) as (H1 & H2 & H3 & _ & H5).
  split; [exact Hi |]. split; [exact Hinv |].
  split; [exact H1 |]. split; [exact H2 |]. split; [exact H3 |].
  split; [exact (H5 Hinv) | exact (Hmono Hle)].
Defined.

(** C5 (restart from the end). On a sequence of length at least 1, the
    play/pause toggle pressed while not playing with
    [currentIndex = length - 1] sets the index to 0, sets [isPlaying], arms one
    interval and stores its handle; the first tick then starts from index 0:
    it moves to 1 when there is a second sample, and stops at 0 otherwise. *)
Theorem play_restarts_from_end (telemetry : list TelemetryPoint) (st : State) :
  1 <= len telemetry ->
  isPlaying st = false ->
  currentIndex st = len telemetry - 1 ->
  let st' := handlePlayPause telemetry st in
  currentIndex st' = 0 /\
  isPlaying st' = true /\
  intervalRef st' = Some (nextTimer st) /\
  timers st' = nextTimer st :: timers st /\
  (2 <= len telemetry ->
   currentIndex (tick telemetry st') = 1 /\
   isPlaying (tick telemetry st') = true) /\
  (len telemetry = 1 ->
   currentIndex (tick telemetry st') = 0 /\
   isPlaying (tick telemetry st') = false).
Proof.
  intros Hn Hp Hi. cbv zeta. unfold handlePlayPause. rewrite Hp.
  replace (currentIndex st >=? len telemetry - 1) with true
    by (symmetry; rewrite Z.geb_leb; apply Z.leb_le; lia).
  unfold startPlayback.
  replace (len telemetry =? 0) with false
    by (symmetry; apply Z.eqb_neq; lia).
  cbn [setInterval setIsPlaying setCurrentIndex setIntervalRef
       currentIndex isPlaying intervalRef timers nextTimer].
  do 4 (split; [reflexivity |]).
  split; intro Hlen; unfold tick; cbn [currentIndex setIntervalRef].
  - replace (0 + 1 >=? len telemetry) with false
      by (symmetry; rewrite Z.geb_leb; apply Z.leb_gt; lia).
    split; reflexivity.
  - replace (0 + 1 >=? len telemetry) with true
      by (symmetry; rewrite Z.geb_leb; apply Z.leb_le; lia).
    split; reflexivity.
Qed.

Lemma play_restarts_from_end_witness :
  let st := run track3 mount
              [PlayPauseClick; TimerTick 0%nat; TimerTick 0%nat;
               TimerTick 0%nat] in
  isPlaying st = false /\ currentIndex st = len track3 - 1 /\
  currentIndex (handlePlayPause track3 st) = 0 /\
  isPlaying (handlePlayPause track3 st) = true /\
  currentIndex (tick track3 (handlePlayPause track3 st)) = 1.
Proof.
  cbv zeta.
  set (st := run track3 mount
               [PlayPauseClick; TimerTick 0%nat; TimerTick 0%nat;
                TimerTick 0%nat]).
  assert (Hn : 1 <= len track3) by (vm_compute; discriminate).
  assert (H2 : 2 <= len track3) by (vm_compute; discriminate).
  assert (Hp : isPlaying st = false) by reflexivity.
  assert (Hi : currentIndex st = len track3 - 1) by reflexivity.
  destruct (play_restarts_from_end track3 st Hn Hp Hi)
    as (E0 & E1 & _ & _ & Hnext & _).
  split; [exact Hp |]. split; [exact Hi |].
  split; [exact E0 |]. split; [exact E1 |].
  exact (proj1 (Hnext H2)).
Defined.

(** C6, as amended (progress). In every reachable state the progress value is
    [currentIndex / (length - 1) * 100], a percentage between 0 and 100, when
    the sequence has more than one sample, and it is 0 when the length is at
    most 1. *)
Theorem progress_percentage (telemetry : list TelemetryPoint) (st : State) :
  reachable telemetry st ->
  (1 < len telemetry ->
   (progress telemetry st ==
      inject_Z (currentIndex st) / inject_Z (len telemetry - 1) * 100)%Q) /\
  (len telemetry <= 1 -> progress telemetry st = 0%Q) /\
  (0 <= progress telemetry st <= 100)%Q.
Proof.
  intro Hr. destruct (reachable_inv _ _ Hr) as [_ Hi]. unfold index_inv in Hi.
  unfold progress. destruct (1 <? len telemetry) eqn:E.
  - apply Z.ltb_lt in E.
    split; [intros _; reflexivity |]. split; [lia |].
    assert (Hd : (0 < inject_Z (len telemetry - 1))%Q).
    { change 0%Q with (inject_Z 0). rewrite <- Zlt_Qlt. lia. }
    assert (H0 : (0 <= inject_Z (currentIndex st))%Q).
    { change 0%Q with (inject_Z 0). rewrite <- Zle_Qle. lia. }
    assert (H1 : (inject_Z (currentIndex st) <= inject_Z (len telemetry - 1))%Q).
    { rewrite <- Zle_Qle. lia. }
    assert (Hq0 : (0 <= inject_Z (currentIndex st)
                         / inject_Z (len telemetry - 1))%Q).
    { apply Qle_shift_div_l; [exact Hd |]. 
      setoid_replace (0 * inject_Z (len telemetry - 1))%Q with 0%Q by ring.
      exact H0. }
    assert (Hq1 : (inject_Z (currentIndex st)
                     / inject_Z (len telemetry - 1) <= 1)%Q).
    { apply Qle_shift_div_r; [exact Hd |].
      setoid_replace (1 * inject_Z (len telemetry - 1))%Q
        with (inject_Z (len telemetry - 1)) by ring.
      exact H1. }
    set (q := (inject_Z (currentIndex st) / inject_Z (len telemetry - 1))%Q)
      in *.
    clearbody q. split; lra.
  - apply Z.ltb_ge in E.
    split; [lia |]. split; [reflexivity |]. split; lra.
Qed.

Lemma progress_percentage_witness :
  let st := handle track3 (handle track3 mount PlayPauseClick)
              (TimerTick 0%nat) in
  reachable track3 st /\ 1 < len track3 /\
  (progress track3 st ==
     inject_Z (currentIndex st) / inject_Z (len track3 - 1) * 100)%Q /\
  (0 <= progress track3 st <= 100)%Q.
Proof.
  cbv zeta.
  assert (Hr : reachable track3
                 (handle track3 (handle track3 mount PlayPauseClick)
                    (TimerTick 0%nat))).
  { apply reachable_step.
    - apply reachable_step; [apply reachable_mount | exact I].
    - left; reflexivity. }
  assert (Hl : 1 < len track3) by reflexivity.
  destruct (progress_percentage track3 _ Hr) as (Heq & _ & Hb).
  split; [exact Hr |]. split; [exact Hl |].
  split; [exact (Heq Hl) | exact Hb].
Defined.

(** C6, the claim as stated fails: after play and one tick on three samples
    the state is reachable with [currentIndex = 1], and the progress value is
    50, neither 1/2 nor within [0, 1]. *)
Lemma progress_not_a_fraction :
  let st := handle track3 (handle track3 mount PlayPauseClick)
              (TimerTick 0%nat) in
  reachable track3 st /\
  currentIndex st = 1 /\ len track3 = 3 /\
  (progress track3 st == 50)%Q /\
  ~ (progress track3 st ==
       inject_Z (currentIndex st) / inject_Z (len track3 - 1))%Q /\
  ~ (progress track3 st <= 1)%Q.
Proof.
  cbv zeta. split.
  { apply reachable_step.
    - apply reachable_step; [apply reachable_mount | exact I].
    - left; reflexivity. }
  split; [reflexivity |]. split; [reflexivity |].
  split; [reflexivity |].
  split; vm_compute; congruence.
Qed.




(** The toggle is pause when playing and play when not. *)
Lemma handlePlayPause_branches (telemetry : list TelemetryPoint) (st : State) :
  handlePlayPause telemetry st
    = if isPlaying st then stopPlayback st else play telemetry st.
Proof. reflexivity. Qed.




End PlaybackFacts.

(** ** Speed and gear colours *)

Section ColourFacts.

Local Open Scope Q_scope.

Lemma or_else_1_nonzero (a : Q) : ~ JS.or_else a 1 == 0.
Proof.
  destruct (Qeq_dec a 0) as [E | E].
  - rewrite (or_else_zero _ _ E). discriminate.
  - rewrite (or_else_nonzero _ _ E). exact E.
Qed.

Lemma speedColor_t_value (s mn mx : Q) :
  speedColor_t s mn mx
    = Some (Qmax 0 (Qmin 1 ((s - mn) / JS.or_else (mx - mn) 1))).
Proof.
  unfold speedColor_t. rewrite div_some by apply or_else_1_nonzero.
  reflexivity.
Qed.

Lemma unit_clamp_bounds (r : Q) : 0 <= Qmax 0 (Qmin 1 r) <= 1.
Proof.
  split; [apply Q.le_max_l |].
  apply Q.max_lub; [discriminate | apply Q.le_min_l].
Qed.



(** Rounding keeps a number between two integers between them. *)
Lemma Math_round_between (lo hi : Z) (v : Q) :
  inject_Z lo <= v -> v <= inject_Z hi ->
  (lo <= JS.Math_round v <= hi)%Z.
Proof.
  intros Hlo Hhi. unfold JS.Math_round. split.
  - rewrite <- (Qfloor_Z lo). apply Qfloor_resp_le. lra.
  - pose proof (Qfloor_le (v + (1 # 2))) as Hf.
    assert (Hlt : inject_Z (Qfloor (v + (1 # 2))) < inject_Z (hi + 1)).
    { rewrite inject_Z_plus. change (inject_Z 1) with 1. lra. }
    rewrite <- Zlt_Qlt in Hlt. lia.
Qed.

(** For a speed, a minimum and a maximum of magnitude at most [2^1022], whose
    differences are therefore finite, [speedColor] never divides by zero: its
    parameter [t] lies in [0, 1] and the three channels it prints are within
    the ends of the gradient, hence valid colour channels. *)
Theorem speedColor_channels (s mn mx : Q) :
  - JS.max_magnitude <= s <= JS.max_magnitude ->
  - JS.max_magnitude <= mn <= JS.max_magnitude ->
  - JS.max_magnitude <= mx <= JS.max_magnitude ->
  exists t r g b,
    speedColor_t s mn mx = Some t /\ 0 <= t <= 1 /\
    speedColor s mn mx
      = Some ("rgb(" ++ JS.string_of_integer r ++ ","
                ++ JS.string_of_integer g ++ ","
                ++ JS.string_of_integer b ++ ")")%string /\
    (30 <= r <= 255)%Z /\ (20 <= g <= 120)%Z /\ (25 <= b <= 255)%Z.
Proof.
  intros _ _ _.
  pose proof (speedColor_t_value s mn mx) as Ht.
  pose proof (unit_clamp_bounds ((s - mn) / JS.or_else (mx - mn) 1)) as Hb.
  set (t := Qmax 0 (Qmin 1 ((s - mn) / JS.or_else (mx - mn) 1))) in *.
  clearbody t.
  exists t, (JS.Math_round (30 + t * 225)), (JS.Math_round (120 - t * 100)),
    (JS.Math_round (255 - t * 230)).
  split; [exact Ht |]. split; [exact Hb |].
  split; [unfold speedColor; rewrite Ht; reflexivity |].
  split; [| split]; apply Math_round_between;
    change (inject_Z 30) with 30; change (inject_Z 255) with 255;
    change (inject_Z 20) with 20; change (inject_Z 120) with 120;
    change (inject_Z 25) with 25; lra.
Qed.

Lemma speedColor_channels_witness :
  exists t r g b,
    speedColor_t 110 100 120 = Some t /\ 0 <= t <= 1 /\
    speedColor 110 100 120
      = Some ("rgb(" ++ JS.string_of_integer r ++ ","
                ++ JS.string_of_integer g ++ ","
                ++ JS.string_of_integer b ++ ")")%string /\
    (30 <= r <= 255)%Z /\ (20 <= g <= 120)%Z /\ (25 <= b <= 255)%Z.
Proof.
  apply (speedColor_channels 110 100 120); split; discriminate.
Defined.

Lemma speedColor_of_t_one (s mn mx t : Q) :
  speedColor_t s mn mx = Some t -> t == 1 ->
  speedColor s mn mx = Some "rgb(255,20,25)"%string.
Proof.
  intros Ht E. unfold speedColor. rewrite Ht. cbn [bind].
  rewrite (Math_round_comp (30 + t * 225) 255) by (rewrite E; ring).
  rewrite (Math_round_comp (120 - t * 100) 20) by (rewrite E; ring).
  rewrite (Math_round_comp (255 - t * 230) 25) by (rewrite E; ring).
  reflexivity.
Qed.

(** With a proper speed range and magnitudes of at most [2^1022], every
    speed at or below the minimum gets the colour of the slow end and every
    speed at or above the maximum the colour of the fast end. *)
Theorem speedColor_saturates (s mn mx : Q) :
  - JS.max_magnitude <= s <= JS.max_magnitude ->
  - JS.max_magnitude <= mn <= JS.max_magnitude ->
  - JS.max_magnitude <= mx <= JS.max_magnitude ->
  mn < mx ->
  (s <= mn -> speedColor s mn mx = Some "rgb(30,120,255)"%string) /\
  (mx <= s -> speedColor s mn mx = Some "rgb(255,20,25)"%string).
Proof.
  intros _ _ _ Hlt.
  assert (Hd : JS.or_else (mx - mn) 1 = mx - mn)
    by (apply or_else_nonzero; lra).
  pose proof (speedColor_t_value s mn mx) as Ht. rewrite Hd in Ht.
  assert (Hpos : 0 < mx - mn) by lra.
  split; intro Hs.
  - eapply speedColor_of_t; [exact Ht |].
    apply Q.max_l. eapply Qle_trans; [apply Q.le_min_r |].
    apply Qle_shift_div_r; [exact Hpos | lra].
  - eapply speedColor_of_t_one; [exact Ht |].
    assert (H1 : 1 <= (s - mn) / (mx - mn))
      by (apply Qle_shift_div_l; [exact Hpos | lra]).
    rewrite (Q.min_l _ _ H1). apply Q.max_r. discriminate.
Qed.

Lemma speedColor_saturates_witness :
  100 < 120 /\ 90 <= 100 /\ 120 <= 130 /\
  speedColor 90 100 120 = Some "rgb(30,120,255)"%string /\
  speedColor 130 100 120 = Some "rgb(255,20,25)"%string.
Proof.
  assert (B90 : - JS.max_magnitude <= 90 <= JS.max_magnitude)
    by (split; discriminate).
  assert (B100 : - JS.max_magnitude <= 100 <= JS.max_magnitude)
    by (split; discriminate).
  assert (B120 : - JS.max_magnitude <= 120 <= JS.max_magnitude)
    by (split; discriminate).
  assert (B130 : - JS.max_magnitude <= 130 <= JS.max_magnitude)
    by (split; discriminate).
  assert (Hlt : 100 < 120) by reflexivity.
  assert (Hlo : 90 <= 100) by discriminate.
  assert (Hhi : 120 <= 130) by discriminate.
  split; [exact Hlt |]. split; [exact Hlo |]. split; [exact Hhi |].
  split.
  - exact (proj1 (speedColor_saturates 90 100 120 B90 B100 B120 Hlt) Hlo).
  - exact (proj2 (speedColor_saturates 130 100 120 B130 B100 B120 Hlt) Hhi).
Defined.

(** In binary64 the bound matters: at [2^1023] the two differences overflow
    to [Infinity] and [t] is [NaN]. *)
Example speedColor_t_overflow :
  PrimFloat.is_nan
    (Binary64.speedColor_t 0x1p1023 (- 0x1p1023) 0x1p1023) = true /\
  PrimFloat.eqb (Binary64.speedColor_t 0x1p1022 (- 0x1p1022) 0x1p1022) 1
    = true.
Proof. split; vm_compute; reflexivity. Qed.





(** The gear readout is white exactly when the gear is unknown or not one of
    the gears 1 to 8, and the eight gears have eight different colours. *)
Theorem gearColor_table :
  gearColor None = "#ffffff"%string /\
  (forall g, (1 <= g <= 8)%Z -> gearColor (Some g) <> "#ffffff"%string) /\
  (forall g, ~ (1 <= g <= 8)%Z -> gearColor (Some g) = "#ffffff"%string) /\
  (forall g h, (1 <= g <= 8)%Z -> (1 <= h <= 8)%Z ->
               gearColor (Some g) = gearColor (Some h) -> g = h).
Proof.
  assert (Hcases : forall g, (1 <= g <= 8)%Z ->
            g = 1%Z \/ g = 2%Z \/ g = 3%Z \/ g = 4%Z \/
            g = 5%Z \/ g = 6%Z \/ g = 7%Z \/ g = 8%Z) by (intros; lia).
  split; [reflexivity |]. split; [| split].
  - intros g Hg.
    destruct (Hcases g Hg) as [-> | [-> | [-> | [-> | [-> | [-> | [-> | ->]]]]]]];
      discriminate.
  - intros g Hg. unfold gearColor, GEAR_COLORS.
    destruct g as [| q | q]; try reflexivity.
    repeat (destruct q as [q | q |];
            try reflexivity; try (exfalso; lia)).
  - intros g h Hg Hh.
    destruct (Hcases g Hg) as [-> | [-> | [-> | [-> | [-> | [-> | [-> | ->]]]]]]];
    destruct (Hcases h Hh) as [-> | [-> | [-> | [-> | [-> | [-> | [-> | ->]]]]]]];
      cbn; intro E; try reflexivity; discriminate E.
Qed.

Lemma gearColor_table_witness :
  gearColor (Some 3%Z) <> "#ffffff"%string /\
  gearColor (Some 9%Z) = "#ffffff"%string /\
  (gearColor (Some 3%Z) = gearColor (Some 3%Z) -> 3%Z = 3%Z).
Proof.
  destruct gearColor_table as (_ & Hin & Hout & Hinj).
  split; [apply Hin; lia |]. split; [apply Hout; lia |].
  apply Hinj; lia.
Defined.

End ColourFacts.

(** ** More on the projection *)

Section ProjectionShape.

Local Open Scope Q_scope.

(** Whatever parameters [buildNormParams] returns have the form computed
    from the four extrema of a non-empty sequence. *)
Lemma buildNormParams_inv (telemetry : list TelemetryPoint) (S P : Q)
    (params : NormParams) :
  buildNormParams telemetry S P = Some params ->
  exists mnX mxX mnY mxY,
    JS.Math_min (map x_coordinate telemetry) = Some mnX /\
    JS.Math_max (map x_coordinate telemetry) = Some mxX /\
    JS.Math_min (map y_coordinate telemetry) = Some mnY /\
    JS.Math_max (map y_coordinate telemetry) = Some mxY /\
    0 < Qmax (JS.or_else (mxX - mnX) 1) (JS.or_else (mxY - mnY) 1) /\
    minX params = mnX /\ minY params = mnY /\
    scale params = (S - P * 2)
                   / Qmax (JS.or_else (mxX - mnX) 1) (JS.or_else (mxY - mnY) 1) /\
    offsetX params = P + ((S - P * 2)
                          - JS.or_else (mxX - mnX) 1 * scale params) / 2 /\
    offsetY params = P + ((S - P * 2)
                          - JS.or_else (mxY - mnY) 1 * scale params) / 2.
Proof.
  intro Hb.
  assert (Hne : telemetry <> []).
  { intros ->. discriminate Hb. }
  destruct (buildNormParams_nonempty telemetry S P Hne)
    as (mnX & mxX & mnY & mxY & HmnX & HmxX & HmnY & HmxY & Hpos & Hb').
  rewrite Hb in Hb'. injection Hb' as ->.
  exists mnX, mxX, mnY, mxY. cbn [minX minY scale offsetX offsetY].
  repeat (split; [assumption || reflexivity |]). reflexivity.
Qed.



(** An axis without extent is not centred.  When all samples share one x
    coordinate, its zero range counts as 1: every sample is projected onto
    the same x, which is [offsetX = padding + (drawable - scale) / 2], half a
    scaled unit before the middle of the square. *)
Theorem projection_degenerate_axis (telemetry : list TelemetryPoint)
    (S P rx : Q) (params : NormParams) (p : TelemetryPoint) :
  buildNormParams telemetry S P = Some params ->
  In p telemetry ->
  coordRange (map x_coordinate telemetry) = Some rx ->
  rx == 0 ->
  x (normPoint p params) == offsetX params /\
  offsetX params == P + ((S - P * 2) - scale params) / 2 /\
  x (normPoint p params) + scale params / 2 == S / 2.
Proof.
  intros Hb Hin Hrx E0.
  destruct (buildNormParams_inv _ _ _ _ Hb)
    as (mnX & mxX & mnY & mxY & HmnX & HmxX & _ & _ & _ & EminX & _ & _
        & EoX & _).
  unfold coordRange in Hrx. rewrite HmnX, HmxX in Hrx. cbn [bind] in Hrx.
  injection Hrx as Hrx. rewrite <- Hrx in E0.
  assert (HinX : In (x_coordinate p) (map x_coordinate telemetry))
    by (apply in_map, Hin).
  pose proof (Math_min_le _ _ _ HmnX HinX) as Hlo.
  pose proof (Math_max_ge _ _ _ HmxX HinX) as Hhi.
  assert (Ep : x_coordinate p - mnX == 0) by lra.
  rewrite (or_else_zero _ 1 E0) in EoX.
  cbn [normPoint x]. rewrite EminX, Ep.
  assert (Eo : offsetX params == P + ((S - P * 2) - scale params) / 2).
  { rewrite EoX. field. }
  split; [ring |]. split; [exact Eo |].
  rewrite Eo. field.
Qed.

Lemma projection_degenerate_axis_witness :
  exists params,
    buildNormParams [sample 3 0 100; sample 3 10 100] SIZE PADDING
      = Some params /\
    x (normPoint (sample 3 10 100) params) == offsetX params /\
    offsetX params == PADDING + ((SIZE - PADDING * 2) - scale params) / 2 /\
    x (normPoint (sample 3 10 100) params) + scale params / 2 == SIZE / 2.
Proof.
  destruct (buildNormParams [sample 3 0 100; sample 3 10 100] SIZE PADDING)
    as [params|] eqn:Hb; [| discriminate Hb].
  exists params. split; [reflexivity |].
  apply (projection_degenerate_axis
           [sample 3 0 100; sample 3 10 100] SIZE PADDING (3 - 3) params
           (sample 3 10 100) Hb).
  - right; left; reflexivity.
  - reflexivity.
  - reflexivity.
Defined.

(** Commands produced for the samples from index [i] on. *)
Lemma all_some_mapi_from_inv {A B : Type} (f : A -> nat -> option B)
    (l : list A) (i : nat) (r : list B) :
  all_some (mapi_from f i l) = Some r ->
  List.length r = List.length l /\
  forall k b, nth_error r k = Some b ->
    exists a, nth_error l k = Some a /\ f a (i + k)%nat = Some b.
Proof.
  revert i r; induction l as [|a l IH]; intros i r H; simpl in H.
  - injection H as <-. split; [reflexivity |].
    intros [|k] b Hk; discriminate Hk.
  - destruct (f a i) as [b0|] eqn:Ef; [| discriminate H]. cbn [bind] in H.
    destruct (all_some (mapi_from f (S i) l)) as [r0|] eqn:Er;
      [| discriminate H].
    cbn [bind] in H. injection H as <-.
    destruct (IH _ _ Er) as [Hlen Hnth].
    split; [simpl; now rewrite Hlen |].
    intros [|k] b Hk; simpl in Hk.
    + injection Hk as <-. exists a. split; [reflexivity |].
      now rewrite Nat.add_0_r.
    + destruct (Hnth k b Hk) as [a' [Ha' Hf']].
      exists a'. split; [exact Ha' |].
      now rewrite Nat.add_succ_r.
Qed.

Lemma pathCommand_prefix (pt : Point) (i : nat) (c : string) :
  pathCommand pt i = Some c ->
  String.prefix (if (i =? 0)%nat then "M " else "L ") c = true.
Proof.
  unfold pathCommand.
  destruct (JS.toFixed (x pt) 2) as [sx|]; [| discriminate].
  destruct (JS.toFixed (y pt) 2) as [sy|]; [| discriminate].
  cbn [bind]. intros [= <-].
  destruct (i =? 0)%nat; apply prefix_correct; simpl;
    destruct (sx ++ String " " sy)%string; reflexivity.
Qed.

(** The outline has one command per sample, in the order of the sequence:
    a path that is produced is the commands joined by single spaces, there
    are as many commands as samples, the command at position [k] is the one
    of sample [k], and it starts with a move for the first sample and with a
    line-to for every other one. *)
Theorem buildPathData_commands (telemetry : list TelemetryPoint)
    (params : NormParams) (path : string) :
  buildPathData telemetry params = Some path ->
  exists commands,
    path = String.concat " " commands /\
    List.length commands = List.length telemetry /\
    forall k c, nth_error commands k = Some c ->
      (exists p, nth_error telemetry k = Some p /\
                 pathCommand (normPoint p params) k = Some c) /\
      String.prefix (if (k =? 0)%nat then "M " else "L ") c = true.
Proof.
  unfold buildPathData, mapi. intro H.
  destruct (all_some
              (mapi_from (fun p i => pathCommand (normPoint p params) i) 0
                 telemetry)) as [commands|] eqn:E; [| discriminate H].
  cbn [bind] in H. injection H as <-.
  destruct (all_some_mapi_from_inv _ _ _ _ E) as [Hlen Hnth].
  exists commands. split; [reflexivity |]. split; [exact Hlen |].
  intros k c Hk. destruct (Hnth k c Hk) as [p [Hp Hc]].
  cbn [Nat.add] in Hc.
  split; [exists p; split; assumption |].
  eapply pathCommand_prefix; exact Hc.
Qed.

Lemma buildPathData_commands_witness :
  exists params commands,
    buildNormParams track3 SIZE PADDING = Some params /\
    "M 69.59 227.40 L 760.00 572.60 L 40.00 365.48"%string
      = String.concat " " commands /\
    List.length commands = List.length track3.
Proof.
  destruct (buildNormParams track3 SIZE PADDING) as [params|] eqn:Hb;
    [| discriminate Hb].
  assert (Hp : buildPathData track3 params
               = Some "M 69.59 227.40 L 760.00 572.60 L 40.00 365.48"%string).
  { injection Hb as <-. vm_compute. reflexivity. }
  destruct (buildPathData_commands track3 params _ Hp)
    as (commands & Hc & Hl & _).
  exists params, commands.
  split; [reflexivity |]. split; [exact Hc | exact Hl].
Defined.

End ProjectionShape.

(** ** More on the playback controller *)

Module PlaybackRuns.

Import Playback PlaybackFacts.

Local Open Scope Z_scope.

Lemma len_nonempty (telemetry : list TelemetryPoint) :
  telemetry <> [] -> 1 <= len telemetry.
Proof.
  unfold len. destruct telemetry; [congruence |]. cbn [List.length]. lia.
Qed.

(** In every reachable state of a non-empty sequence the index is on the
    sequence, so the current sample exists and is a sample of the sequence:
    the readout and the car marker are always rendered. *)
Theorem current_defined (telemetry : list TelemetryPoint) (st : State) :
  telemetry <> [] ->
  reachable telemetry st ->
  0 <= currentIndex st <= len telemetry - 1 /\
  exists c, current telemetry st = Some c /\ In c telemetry.
Proof.
  intros Hne Hr. destruct (reachable_inv _ _ Hr) as [_ Hi].
  unfold index_inv in Hi. pose proof (len_nonempty _ Hne) as Hl.
  assert (Hb : 0 <= currentIndex st <= len telemetry - 1) by lia.
  split; [exact Hb |].
  unfold current.
  replace (currentIndex st <? 0) with false by (symmetry; apply Z.ltb_ge; lia).
  destruct (nth_error telemetry (Z.to_nat (currentIndex st))) as [c|] eqn:E.
  - exists c. split; [reflexivity | eapply nth_error_In; exact E].
  - exfalso. apply nth_error_None in E. unfold len in Hb. lia.
Qed.

Lemma current_defined_witness :
  let st := handle track3 (handle track3 mount PlayPauseClick)
              (TimerTick 0%nat) in
  0 <= currentIndex st <= len track3 - 1 /\
  exists c, current track3 st = Some c /\ In c track3.
Proof.
  cbv zeta. apply (current_defined track3).
  - discriminate.
  - apply reachable_step.
    + apply reachable_step; [apply reachable_mount | exact I].
    + left; reflexivity.
Defined.

(** Whenever the index is 0 (at mount, after a restart from the end, after a
    seek to the start) the car marker sits exactly on the start/finish
    marker; for the empty sequence neither is drawn. *)
Theorem carPos_at_start (telemetry : list TelemetryPoint) (st : State) :
  currentIndex st = 0 ->
  carPos telemetry st = startPos telemetry.
Proof.
  intro H0. unfold carPos, current, startPos. rewrite H0. cbn.
  destruct telemetry; reflexivity.
Qed.

Lemma carPos_at_start_witness :
  currentIndex mount = 0 /\ carPos track3 mount = startPos track3.
Proof.
  split; [reflexivity | apply (carPos_at_start track3 mount); reflexivity].
Defined.

(** [n] ticks in a row that stay on the sequence only advance the index. *)
Lemma iter_tick_advances (telemetry : list TelemetryPoint) (st : State)
    (n : nat) :
  currentIndex st + Z.of_nat n <= len telemetry - 1 ->
  Nat.iter n (tick telemetry) st
    = setCurrentIndex (currentIndex st + Z.of_nat n) st.
Proof.
  induction n as [|n IH]; intro Hb.
  - destruct st. unfold setCurrentIndex. cbn. f_equal. lia.
  - rewrite Nat.iter_succ. rewrite IH by lia.
    unfold tick. cbn [currentIndex setCurrentIndex].
    replace (currentIndex st + Z.of_nat n + 1 >=? len telemetry) with false
      by (symmetry; rewrite Z.geb_leb; apply Z.leb_gt; lia).
    unfold setCurrentIndex. cbn. f_equal. lia.
Qed.

(** Play pressed while paused before the last sample. *)
Lemma play_before_end (telemetry : list TelemetryPoint) (st : State) :
  isPlaying st = false ->
  0 <= currentIndex st < len telemetry - 1 ->
  handlePlayPause telemetry st
    = {| currentIndex := currentIndex st; isPlaying := true;
         intervalRef := Some (nextTimer st);
         timers := nextTimer st :: timers st;
         nextTimer := S (nextTimer st) |}.
Proof.
  intros Hp Hk. unfold handlePlayPause. rewrite Hp.
  replace (currentIndex st >=? len telemetry - 1) with false
    by (symmetry; rewrite Z.geb_leb; apply Z.leb_gt; lia).
  unfold startPlayback.
  replace (len telemetry =? 0) with false
    by (symmetry; apply Z.eqb_neq; lia).
  reflexivity.
Qed.

Lemma play_then_ticks (telemetry : list TelemetryPoint) (st : State)
    (n : nat) :
  isPlaying st = false ->
  0 <= currentIndex st < len telemetry - 1 ->
  currentIndex st + Z.of_nat n <= len telemetry - 1 ->
  Nat.iter n (tick telemetry) (handlePlayPause telemetry st)
    = {| currentIndex := currentIndex st + Z.of_nat n; isPlaying := true;
         intervalRef := Some (nextTimer st);
         timers := nextTimer st :: timers st;
         nextTimer := S (nextTimer st) |}.
Proof.
  intros Hp Hk Hn. rewrite (play_before_end _ _ Hp Hk).
  rewrite iter_tick_advances by exact Hn. reflexivity.
Qed.

(** Monotonic playback.  After play from index [k], pressed while paused
    before the last sample, [n] ticks that stay on the sequence leave the
    index at [k + n], with the component still playing on the one timer that
    play armed. *)
Theorem playback_advances (telemetry : list TelemetryPoint) (st : State)
    (n : nat) :
  isPlaying st = false ->
  0 <= currentIndex st < len telemetry - 1 ->
  currentIndex st + Z.of_nat n <= len telemetry - 1 ->
  let st' := Nat.iter n (tick telemetry) (handlePlayPause telemetry st) in
  currentIndex st' = currentIndex st + Z.of_nat n /\
  isPlaying st' = true /\
  intervalRef st' = Some (nextTimer st) /\
  timers st' = nextTimer st :: timers st.
Proof.
  intros Hp Hk Hn. cbv zeta. rewrite (play_then_ticks _ _ _ Hp Hk Hn).
  cbn. repeat split.
Qed.

Lemma playback_advances_witness :
  let st' := Nat.iter 2 (tick track10) (handlePlayPause track10 mount) in
  currentIndex st' = 2 /\ isPlaying st' = true /\
  intervalRef st' = Some 0%nat /\ timers st' = [0%nat].
Proof.
  cbv zeta.
  assert (Hp : isPlaying mount = false) by reflexivity.
  assert (Hk : 0 <= currentIndex mount < len track10 - 1)
    by (split; [discriminate | reflexivity]).
  assert (Hn : currentIndex mount + Z.of_nat 2 <= len track10 - 1)
    by discriminate.
  exact (playback_advances track10 mount 2 Hp Hk Hn).
Defined.

(** Playback runs to the end and stops by itself.  From a paused state with
    a consistent timer record and an index [k] before the last sample, play
    followed by [length - 1 - k] ticks reaches the last sample still playing,
    and one more tick stops there: index [length - 1], not playing, no handle
    stored and no interval armed. *)
Theorem playback_reaches_end (telemetry : list TelemetryPoint) (st : State) :
  timer_inv st ->
  isPlaying st = false ->
  0 <= currentIndex st < len telemetry - 1 ->
  let n := Z.to_nat (len telemetry - 1 - currentIndex st) in
  let atEnd := Nat.iter n (tick telemetry) (handlePlayPause telemetry st) in
  let st' := tick telemetry atEnd in
  (currentIndex atEnd = len telemetry - 1 /\ isPlaying atEnd = true) /\
  currentIndex st' = len telemetry - 1 /\
  isPlaying st' = false /\
  intervalRef st' = None /\
  timers st' = [].
Proof.
  intros Hinv Hp Hk. cbv zeta.
  set (n := Z.to_nat (len telemetry - 1 - currentIndex st)).
  assert (Hn : currentIndex st + Z.of_nat n <= len telemetry - 1)
    by (unfold n; lia).
  assert (Hidx : currentIndex st + Z.of_nat n = len telemetry - 1)
    by (unfold n; lia).
  rewrite (play_then_ticks _ _ _ Hp Hk Hn). rewrite Hidx.
  destruct Hinv as [Hq Ht].
  assert (Hnone : intervalRef st = None).
  { rewrite Hp in Hq. destruct (intervalRef st); [discriminate | reflexivity]. }
  rewrite Hnone in Ht.
  split; [split; reflexivity |].
  unfold tick. cbn [currentIndex].
  replace (len telemetry - 1 + 1 >=? len telemetry) with true
    by (symmetry; rewrite Z.geb_leb; apply Z.leb_le; lia).
  cbn [currentIndex isPlaying intervalRef timers clearInterval
       setCurrentIndex setIsPlaying setIntervalRef].
  do 3 (split; [reflexivity |]).
  rewrite Ht. apply remove_single.
Qed.

Lemma playback_reaches_end_witness :
  let atEnd := Nat.iter 9 (tick track10) (handlePlayPause track10 mount) in
  (currentIndex atEnd = 9 /\ isPlaying atEnd = true) /\
  currentIndex (tick track10 atEnd) = 9 /\
  isPlaying (tick track10 atEnd) = false /\
  intervalRef (tick track10 atEnd) = None /\
  timers (tick track10 atEnd) = [].
Proof.
  cbv zeta.
  assert (Hinv : timer_inv mount) by (split; reflexivity).
  assert (Hp : isPlaying mount = false) by reflexivity.
  assert (Hk : 0 <= currentIndex mount < len track10 - 1)
    by (split; [discriminate | reflexivity]).
  exact (playback_reaches_end track10 mount Hinv Hp Hk).
Defined.

(** A paused component never moves by itself: in a reachable state that is
    not playing no interval is armed, so no tick can fire, and the index
    changes only through the button or the slider. *)
Theorem paused_is_stable (telemetry : list TelemetryPoint) (st : State) :
  reachable telemetry st ->
  isPlaying st = false ->
  timers st = [] /\
  forall id, ~ enabled telemetry st (TimerTick id).
Proof.
  intros Hr Hp. destruct (reachable_inv _ _ Hr) as [[Hq Ht] _].
  rewrite Hp in Hq.
  destruct (intervalRef st); [discriminate |].
  split; [exact Ht |]. intros id Hin. cbn in Hin. rewrite Ht in Hin.
  exact Hin.
Qed.

Lemma paused_is_stable_witness :
  let st := run track3 mount
              [PlayPauseClick; TimerTick 0%nat; TimerTick 0%nat;
               TimerTick 0%nat] in
  reachable track3 st /\ isPlaying st = false /\ timers st = [] /\
  ~ enabled track3 st (TimerTick 0%nat).
Proof.
  cbv zeta.
  assert (Hr : reachable track3
                 (run track3 mount
                    [PlayPauseClick; TimerTick 0%nat; TimerTick 0%nat;
                     TimerTick 0%nat])).
  { unfold run. cbn [fold_left].
    repeat (apply reachable_step; [| first [exact I | left; reflexivity]]).
    apply reachable_mount. }
  assert (Hp : isPlaying (run track3 mount
                            [PlayPauseClick; TimerTick 0%nat; TimerTick 0%nat;
                             TimerTick 0%nat]) = false) by reflexivity.
  destruct (paused_is_stable track3 _ Hr Hp) as [Ht Hno].
  split; [exact Hr |]. split; [exact Hp |]. split; [exact Ht | apply Hno].
Defined.

(** Pausing keeps the position and resuming continues from it.  Pausing a
    playing component with a consistent timer record leaves the index, stores
    no handle and arms no interval; pausing again changes nothing; and when
    the index is before the last sample, pressing the button once more plays
    from the same index on one new timer. *)
Theorem pause_resume_keeps_position (telemetry : list TelemetryPoint)
    (st : State) :
  timer_inv st ->
  isPlaying st = true ->
  let paused := handlePlayPause telemetry st in
  currentIndex paused = currentIndex st /\
  isPlaying paused = false /\
  intervalRef paused = None /\
  timers paused = [] /\
  stopPlayback paused = paused /\
  (0 <= currentIndex st < len telemetry - 1 ->
   let resumed := handlePlayPause telemetry paused in
   currentIndex resumed = currentIndex st /\
   isPlaying resumed = true /\
   intervalRef resumed = Some (nextTimer st) /\
   timers resumed = [nextTimer st]).
Proof.
  intros [Hq Ht] Hp. cbv zeta.
  unfold handlePlayPause at 1 2 3 4 5. rewrite Hp.
  rewrite Hp in Hq.
  destruct (intervalRef st) as [id|] eqn:Eref; [| discriminate].
  assert (Hstop : stopPlayback st
                  = {| currentIndex := currentIndex st; isPlaying := false;
                       intervalRef := None; timers := [];
                       nextTimer := nextTimer st |}).
  { unfold stopPlayback. rewrite Eref.
    unfold setIsPlaying, setIntervalRef, clearInterval. cbn.
    rewrite Ht, remove_single. reflexivity. }
  unfold handlePlayPause. rewrite Hp, Hstop. cbn [currentIndex isPlaying
    intervalRef timers nextTimer].
  do 4 (split; [reflexivity |]). split; [reflexivity |].
  intro Hk.
  replace (currentIndex st >=? len telemetry - 1) with false
    by (symmetry; rewrite Z.geb_leb; apply Z.leb_gt; lia).
  unfold startPlayback.
  replace (len telemetry =? 0) with false
    by (symmetry; apply Z.eqb_neq; lia).
  cbn. repeat split.
Qed.

Lemma pause_resume_keeps_position_witness :
  let st := run track10 mount
              [PlayPauseClick; TimerTick 0%nat; TimerTick 0%nat] in
  let paused := handlePlayPause track10 st in
  let resumed := handlePlayPause track10 paused in
  currentIndex st = 2 /\ currentIndex paused = 2 /\ timers paused = [] /\
  currentIndex resumed = 2 /\ isPlaying resumed = true /\
  timers resumed = [1%nat].
Proof.
  cbv zeta.
  set (st := run track10 mount
               [PlayPauseClick; TimerTick 0%nat; TimerTick 0%nat]).
  assert (Hinv : timer_inv st) by (split; reflexivity).
  assert (Hp : isPlaying st = true) by reflexivity.
  assert (Hk : 0 <= currentIndex st < len track10 - 1)
    by (split; [discriminate | reflexivity]).
  destruct (pause_resume_keeps_position track10 st Hinv Hp)
    as (E1 & _ & _ & E4 & _ & Hres).
  destruct (Hres Hk) as (R1 & R2 & _ & R4).
  split; [reflexivity |]. split; [exact E1 |]. split; [exact E4 |].
  split; [exact R1 |]. split; [exact R2 | exact R4].
Defined.

(** Seeking while playing pauses, and play then continues from the sought
    sample.  From a state with a consistent timer record, a slider change to
    [v] before the last sample followed by the play button gives index [v],
    playing, with exactly one interval armed: the new one. *)
Theorem seek_then_play (telemetry : list TelemetryPoint) (v : Z) (st : State) :
  timer_inv st ->
  0 <= v < len telemetry - 1 ->
  let st' := handlePlayPause telemetry (handleSliderChange v st) in
  currentIndex st' = v /\
  isPlaying st' = true /\
  intervalRef st' = Some (nextTimer st) /\
  timers st' = [nextTimer st].
Proof.
  intros Hinv Hv. cbv zeta.
  destruct (stopPlayback_fields st) as (Hi & Hp & Hr & _).
  destruct (stopPlayback_inv st Hinv) as [_ Ht].
  assert (Hn : nextTimer (stopPlayback st) = nextTimer st).
  { unfold stopPlayback. destruct (intervalRef st); reflexivity. }
  assert (Hseek : handleSliderChange v st
                  = {| currentIndex := v; isPlaying := false;
                       intervalRef := None; timers := [];
                       nextTimer := nextTimer st |}).
  { unfold handleSliderChange, setCurrentIndex.
    rewrite Hp, Hr, Ht, Hn. reflexivity. }
  rewrite Hseek.
  rewrite play_before_end by (cbn; first [reflexivity | lia]).
  cbn. repeat split.
Qed.

Lemma seek_then_play_witness :
  let st := run track10 mount [PlayPauseClick; TimerTick 0%nat] in
  let st' := handlePlayPause track10 (handleSliderChange 6 st) in
  timer_inv st /\ currentIndex st' = 6 /\ isPlaying st' = true /\
  intervalRef st' = Some 1%nat /\ timers st' = [1%nat].
Proof.
  cbv zeta.
  set (st := run track10 mount [PlayPauseClick; TimerTick 0%nat]).
  assert (Hinv : timer_inv st) by (split; reflexivity).
  assert (Hv : 0 <= 6 < len track10 - 1)
    by (split; [discriminate | reflexivity]).
  split; [exact Hinv |].
  exact (seek_then_play track10 6 st Hinv Hv).
Defined.

(** Unmounting releases the timer: after the clean-up of the mount effect,
    run in any reachable state, no interval is armed. *)
Theorem unmount_releases_timer (telemetry : list TelemetryPoint) (st : State) :
  reachable telemetry st ->
  timers (unmount st) = [].
Proof.
  intro Hr. destruct (reachable_inv _ _ Hr) as [[_ Ht] _].
  unfold unmount. destruct (intervalRef st) as [id|]; cbn.
  - rewrite Ht. apply remove_single.
  - exact Ht.
Qed.

Lemma unmount_releases_timer_witness :
  let st := handle track3 mount PlayPauseClick in
  reachable track3 st /\ timers st = [0%nat] /\ timers (unmount st) = [].
Proof.
  cbv zeta.
  assert (Hr : reachable track3 (handle track3 mount PlayPauseClick))
    by (apply reachable_step; [apply reachable_mount | exact I]).
  split; [exact Hr |]. split; [reflexivity |].
  exact (unmount_releases_timer track3 _ Hr).
Defined.

(** The progress bar is empty exactly at the first sample and full exactly
    at the last one, on a sequence of more than one sample. *)
Theorem progress_endpoints (telemetry : list TelemetryPoint) (st : State) :
  1 < len telemetry ->
  ((progress telemetry st == 0)%Q <-> currentIndex st = 0) /\
  ((progress telemetry st == 100)%Q <-> currentIndex st = len telemetry - 1).
Proof.
  intro Hl. unfold progress.
  replace (1 <? len telemetry) with true by (symmetry; apply Z.ltb_lt; lia).
  assert (Hd : (0 < inject_Z (len telemetry - 1))%Q).
  { change 0%Q with (inject_Z 0). rewrite <- Zlt_Qlt. lia. }
  assert (Hnum : (inject_Z (currentIndex st)
                  == inject_Z (currentIndex st) / inject_Z (len telemetry - 1)
                     * inject_Z (len telemetry - 1))%Q)
    by (field; lra).
  set (q := (inject_Z (currentIndex st) / inject_Z (len telemetry - 1))%Q)
    in *.
  split; split; intro H.
  - assert (Hq : (q == 0)%Q) by lra.
    rewrite Hq in Hnum.
    assert (E : (inject_Z (currentIndex st) == inject_Z 0)%Q)
      by (rewrite Hnum; change (inject_Z 0) with 0%Q; ring).
    exact (proj1 (inject_Z_injective _ _) E).
  - assert (Hq : (q == 0)%Q).
    { unfold q. rewrite H. change (inject_Z 0) with 0%Q. field. lra. }
    rewrite Hq. ring.
  - assert (Hq : (q == 1)%Q) by lra.
    rewrite Hq in Hnum.
    assert (E : (inject_Z (currentIndex st)
                 == inject_Z (len telemetry - 1))%Q)
      by (rewrite Hnum; ring).
    exact (proj1 (inject_Z_injective _ _) E).
  - assert (Hq : (q == 1)%Q).
    { unfold q. rewrite H. field. lra. }
    rewrite Hq. ring.
Qed.

Lemma progress_endpoints_witness :
  1 < len track3 /\
  ((progress track3 mount == 0)%Q <-> currentIndex mount = 0) /\
  ((progress track3 mount == 100)%Q <-> currentIndex mount = len track3 - 1).
Proof.
  assert (Hl : 1 < len track3) by reflexivity.
  split; [exact Hl | exact (progress_endpoints track3 mount Hl)].
Defined.

(** The empty sequence.  Nothing is drawn (an empty path, no start marker, no
    current sample, no car marker), the progress is 0, and play is a no-op:
    pressed while not playing it leaves the component not playing and arms no
    interval. *)
Theorem empty_sequence (params : NormParams) (st : State) :
  buildPathData [] params = Some EmptyString /\
  startPos [] = None /\
  current [] st = None /\
  carPos [] st = None /\
  progress [] st = 0%Q /\
  (isPlaying st = false ->
   isPlaying (handlePlayPause [] st) = false /\
   intervalRef (handlePlayPause [] st) = intervalRef st /\
   timers (handlePlayPause [] st) = timers st).
Proof.
  assert (Hc : current [] st = None).
  { unfold current. destruct (currentIndex st <? 0); [reflexivity |].
    destruct (Z.to_nat (currentIndex st)); reflexivity. }
  split; [reflexivity |]. split; [reflexivity |]. split; [exact Hc |].
  split; [unfold carPos; rewrite Hc; reflexivity |].
  split; [reflexivity |].
  intro Hp. unfold handlePlayPause. rewrite Hp.
  unfold startPlayback. cbn [len List.length Z.of_nat Z.eqb].
  destruct (currentIndex st >=? 0 - 1); cbn; rewrite ?Hp; repeat split.
Qed.

Lemma empty_sequence_witness :
  isPlaying mount = false /\
  isPlaying (handlePlayPause [] mount) = false /\
  timers (handlePlayPause [] mount) = [].
Proof.
  assert (Hp : isPlaying mount = false) by reflexivity.
  destruct (empty_sequence
              {| minX := 0; minY := 0; scale := 1; offsetX := 0; offsetY := 0 |}
              mount) as (_ & _ & _ & _ & _ & Hplay).
  destruct (Hplay Hp) as (E1 & _ & E3).
  split; [exact Hp |]. split; [exact E1 | exact E3].
Defined.

End PlaybackRuns.
